(** * arxiv-radar: the weekly classification-and-selection pipeline

    A shallow embedding of [arxiv_weekly_radar.py]: the seen-ledger
    ([load_seen], [save_seen]), the keyword classifier ([norm],
    [count_hits] and the best-bucket loop of [main]), the quota allocator
    ([ratio_counts]), the selector (the [sort_values]/[head]/[concat] part
    of [main]) and the two exporters.

    Python [int] is [Z].  A Python [str] is a [string] whose characters are
    read as the code points 0..255; every literal of the program is ASCII.
    A [set] of identifiers is a [gset string]; the bucket table, a [dict]
    iterated in insertion order, is an association list. *)

From Stdlib Require Import ZArith Lia Ascii String List Sorted Permutation.
From stdpp Require Import base decidable option list sets gmap strings sorting.

Local Open Scope Z_scope.

(** ** Quota allocator *)

Module Allocator.

(** [int(round(p / s))] for integers [p], [s] with [s <> 0].  Python 3
    divides the two integers into the double nearest to the quotient and
    [round] sends a double to the nearest integer, a tie to the even one.
    The two roundings agree with rounding the exact quotient whenever
    [|p| < 2^52]: a quotient that is not a tie lies at least [1/(2s)] from
    one, which is more than half a unit in the last place of the double. *)
Definition round_half_even_pos (p s : Z) : Z :=
  let q := p / s in
  let r := p mod s in
  if 2 * r <? s then q
  else if s <? 2 * r then q + 1
  else if Z.even q then q else q + 1.

Definition py_round_div (p s : Z) : Z :=
  if s <? 0 then round_half_even_pos (- p) (- s) else round_half_even_pos p s.

(** The range in which [py_round_div] is the double-precision computation.
    Outside it the program may round to another integer, and for a quotient
    too large for a double the division raises [OverflowError]; statements
    about what [ratio_counts] returns are made under this bound, for
    non-negative arguments. *)
Definition double_exact (total a b : Z) : Prop :=
  total * a < 2 ^ 52 /\ total * b < 2 ^ 52.

(** [ratio_counts(total, ratio)]; [None] is the [ZeroDivisionError] of a
    ratio that sums to zero. *)
Definition ratio_counts (total : Z) (ratio : Z * Z * Z) : option (Z * Z * Z) :=
  let '(a, b, c) := ratio in
  let s := a + b + c in
  if s =? 0 then None
  else
    let x := py_round_div (total * a) s in
    let y := py_round_div (total * b) s in
    let z := total - x - y in
    Some (x, y, z).

(** The rounding as the specification words it: to nearest, a tie away
    from zero. *)
Definition round_half_away (p s : Z) : Z :=
  Z.sgn p * Z.sgn s * ((2 * Z.abs p + Z.abs s) / (2 * Z.abs s)).

Definition ratio_counts_ties_away (total : Z) (ratio : Z * Z * Z)
  : option (Z * Z * Z) :=
  let '(a, b, c) := ratio in
  let s := a + b + c in
  if s =? 0 then None
  else
    let x := round_half_away (total * a) s in
    let y := round_half_away (total * b) s in
    Some (x, y, total - x - y).

(** [x] is an integer nearest to [p / s], the even one on a tie. *)
Definition nearest_even (p s x : Z) : Prop :=
  Z.abs (2 * (s * x) - 2 * p) <= s /\
  (Z.abs (2 * (s * x) - 2 * p) = s -> Z.even x = true).

End Allocator.


(** ** Text primitives *)

Module Text.

(** The newline character and the one-character string of it. *)
Definition LF : ascii := "010"%char.
Definition CR : ascii := "013"%char.
Definition nl : string := String LF "".

(** [str.isspace] on the code points below 256; it is also what [\s]
    matches in a [str] pattern and what [str.strip()] removes. *)
Definition is_space (c : ascii) : bool :=
  let n := nat_of_ascii c in
  (Nat.leb 9 n && Nat.leb n 13) || (Nat.leb 28 n && Nat.leb n 32)
  || Nat.eqb n 133 || Nat.eqb n 160.

(** [str.lower] on one code point below 256: the letters A-Z and the
    Latin-1 capitals (all of 192..222 but the multiplication sign). *)
Definition lower_char (c : ascii) : ascii :=
  let n := nat_of_ascii c in
  if (Nat.leb 65 n && Nat.leb n 90)
     || (Nat.leb 192 n && Nat.leb n 222 && negb (Nat.eqb n 215))
  then ascii_of_nat (n + 32) else c.

Fixpoint lower (s : string) : string :=
  match s with
  | EmptyString => EmptyString
  | String c r => String (lower_char c) (lower r)
  end.

(** [re.sub(r"\s+", " ", s)]: [in_ws] says that the previous character was
    white space, whose run has already been replaced. *)
Fixpoint collapse_ws_go (in_ws : bool) (s : string) : string :=
  match s with
  | EmptyString => EmptyString
  | String c r =>
      if is_space c
      then if in_ws then collapse_ws_go true r
           else String " " (collapse_ws_go true r)
      else String c (collapse_ws_go false r)
  end.

Definition collapse_ws : string -> string := collapse_ws_go false.

Fixpoint lstrip (s : string) : string :=
  match s with
  | EmptyString => EmptyString
  | String c r => if is_space c then lstrip r else s
  end.

Fixpoint rstrip (s : string) : string :=
  match s with
  | EmptyString => EmptyString
  | String c r =>
      match rstrip r with
      | EmptyString => if is_space c then EmptyString else String c EmptyString
      | r' => String c r'
      end
  end.

(** [s.strip()] *)
Definition strip (s : string) : string := rstrip (lstrip s).

(** [norm(s)] *)
Definition norm (s : string) : string := lower (strip (collapse_ws s)).

(** [kw in t] *)
Fixpoint contains (kw t : string) : bool :=
  String.prefix kw t
  || match t with
     | EmptyString => false
     | String _ r => contains kw r
     end.

(** [s.startswith(p)] *)
Definition startswith (p s : string) : bool := String.prefix p s.

(** [s.split(sep)] for a one-character separator: never the empty list. *)
Fixpoint split (sep : ascii) (s : string) : list string :=
  match s with
  | EmptyString => [EmptyString]
  | String c r =>
      if Ascii.eqb c sep then EmptyString :: split sep r
      else match split sep r with
           | h :: t => String c h :: t
           | [] => [String c EmptyString]
           end
  end.

(** [sep.join(l)] *)
Fixpoint join (sep : string) (l : list string) : string :=
  match l with
  | [] => EmptyString
  | x :: rest =>
      match rest with
      | [] => x
      | _ => x +:+ sep +:+ join sep rest
      end
  end.

(** [s.replace("\n", " ")] *)
Fixpoint replace_nl (s : string) : string :=
  match s with
  | EmptyString => EmptyString
  | String c r => String (if Ascii.eqb c LF then " "%char else c) (replace_nl r)
  end.

(** [s[:n]] for [n >= 0] *)
Fixpoint slice_to (n : nat) (s : string) : string :=
  match n, s with
  | S n', String c r => String c (slice_to n' r)
  | _, _ => EmptyString
  end.

(** The line boundaries of [str.splitlines] among the code points below
    256: LF, VT, FF, CR, FS, GS, RS and NEL. *)
Definition is_linebreak (c : ascii) : bool :=
  let n := nat_of_ascii c in
  (Nat.leb 10 n && Nat.leb n 13) || (Nat.leb 28 n && Nat.leb n 30)
  || Nat.eqb n 133.

(** [s.splitlines()]: a boundary ends the current line, CR LF counts as one
    boundary, and no empty line is reported after the last boundary. *)
Fixpoint splitlines (s : string) : list string :=
  match s with
  | EmptyString => []
  | String c r =>
      if is_linebreak c then
        match r with
        | String c' r' =>
            if Ascii.eqb c CR && Ascii.eqb c' LF
            then EmptyString :: splitlines r'
            else EmptyString :: splitlines r
        | EmptyString => [EmptyString]
        end
      else match splitlines r with
           | h :: t => String c h :: t
           | [] => [String c EmptyString]
           end
  end.

(** Every character of [s] satisfies [f]. *)
Fixpoint forall_chars (f : ascii -> bool) (s : string) : bool :=
  match s with
  | EmptyString => true
  | String c r => f c && forall_chars f r
  end.

(** [s.count(c)] *)
Fixpoint count_char (c : ascii) (s : string) : nat :=
  match s with
  | EmptyString => O
  | String c' r => if Ascii.eqb c' c then S (count_char c r) else count_char c r
  end.

(** [s] holds no line boundary, and so is one line for [splitlines]. *)
Definition no_linebreak (s : string) : Prop :=
  forall_chars (fun c => negb (is_linebreak c)) s = true.

(** [s] holds no comma. *)
Definition no_comma (s : string) : Prop :=
  forall_chars (fun c => negb (Ascii.eqb c ","%char)) s = true.

(** White space of [s] is normalised: every white-space character is a
    blank and no blank follows another; [prev_ws] says that a blank stands
    just before [s]. *)
Fixpoint single_spaced (prev_ws : bool) (s : string) : bool :=
  match s with
  | EmptyString => true
  | String c r =>
      if is_space c
      then Ascii.eqb c " "%char && negb prev_ws && single_spaced true r
      else single_spaced false r
  end.

End Text.

(** ** Seen-ledger *)

Module Ledger.
Import Text.

(** [sorted(seen)]: the identifiers in increasing code-point order. *)
Definition sorted (seen : gset string) : list string :=
  merge_sort String.le (elements seen).

(** [load_seen()], given the content of the ledger file, [None] when the
    file does not exist.  Reading in text mode turns CR LF and CR into LF,
    which leaves the lines of [splitlines] as they are, CR LF, CR and LF each
    being one boundary. *)
Definition load_seen (file : option string) : gset string :=
  match file with
  | None => ∅
  | Some txt => list_to_set (splitlines txt)
  end.

(** [save_seen(seen)]: the text written to the ledger file. *)
Definition save_seen (seen : gset string) : string :=
  join nl (sorted seen).

End Ledger.

(** ** Bucket classifier *)

Module Classifier.
Import Text.

(** The bucket table in declaration order. *)
Definition Buckets : Type := list (string * list string).

(** [count_hits(text, keywords)] *)
Definition count_hits (text : string) (keywords : list string) : Z * Z :=
  let t := norm text in
  fold_left
    (fun (acc : Z * Z) kw =>
       if contains kw t then (fst acc + 1, snd acc + 1) else acc)
    keywords (0, 0).

(** The three variables of the best-bucket loop of [main]. *)
Record Best : Type := mkBest {
  best_bucket : option string;
  best_hits : Z;
  best_score : Z
}.

Definition best_init : Best := mkBest None 0 (-1).

(** One iteration of [for bname, kws in BUCKETS.items()]. *)
Definition best_step (blob : string) (b : Best) (entry : string * list string) : Best :=
  let '(hits, sc) := count_hits blob (snd entry) in
  if best_score b <? sc then mkBest (Some (fst entry)) hits sc else b.

Definition classify (buckets : Buckets) (blob : string) : Best :=
  fold_left (best_step blob) buckets best_init.

End Classifier.

(** ** Configuration and records *)

Record Config : Type := mkConfig {
  TOTAL_PICKS : Z;
  RATIO : Z * Z * Z;
  MIN_HITS_ANY_BUCKET : Z;
  BUCKETS : Classifier.Buckets
}.

(** The module-level constants of the program. *)
Definition shipped : Config := {|
  TOTAL_PICKS := 10;
  RATIO := (6, 3, 1);
  MIN_HITS_ANY_BUCKET := 2;
  BUCKETS :=
    [ ("P1_world_model_vla_3d",
       [ "world model"; "embodied"; "vla"; "vision-language-action";
         "visuomotor"; "policy learning"; "sim2real";
         "3d reconstruction"; "multi-view"; "structure from motion";
         "slam"; "nerf"; "gaussian splatting"; "robot"; "robotics" ]);
      ("P2_generative_ai",
       [ "diffusion"; "generative model"; "foundation model";
         "video generation"; "multimodal"; "transformer" ]);
      ("P3_2d_cv",
       [ "object detection"; "segmentation";
         "multi-object tracking"; "mot";
         "reid"; "association"; "id switch" ]) ]
|}.

(** What [main] reads of one result of the catalog search.  [res_published]
    is the instant of publication in microseconds since the epoch. *)
Record Result : Type := mkResult {
  short_id : string;
  res_title : string;
  res_summary : option string;
  res_published : Z;
  res_authors : list string;
  entry_id : string
}.

(** One row of the data frame.  The column [published] holds the ISO-8601
    text of a UTC instant; those texts are ordered as the instants are, and
    the row keeps the instant. *)
Record Row : Type := mkRow {
  pid : string;
  title : string;
  authors : string;
  published : Z;
  url : string;
  bucket : option string;
  score : Z;
  abstract : string
}.

(** ** Selector *)

Module Selector.
Import Text.

(** [r1] may stand before [r2] in the order
    [sort_values(["score", "published"], ascending=[False, False])]. *)
Definition row_ge (r1 r2 : Row) : bool :=
  (score r2 <? score r1)
  || ((score r1 =? score r2) && (published r2 <=? published r1)).

Fixpoint insert_row (r : Row) (l : list Row) : list Row :=
  match l with
  | [] => [r]
  | h :: t => if row_ge r h then r :: l else h :: insert_row r t
  end.

(** The stable sort of the data frame: rows with equal keys keep the order
    in which they were appended. *)
Fixpoint sort_values (rows : list Row) : list Row :=
  match rows with
  | [] => []
  | r :: rest => insert_row r (sort_values rest)
  end.

(** [df.head(n)]: the first [n] rows, and for a negative [n] all rows but
    the last [-n]. *)
Definition df_head {A : Type} (n : Z) (l : list A) : list A :=
  if 0 <=? n then firstn (Z.to_nat n) l
  else firstn (length l - Z.to_nat (- n)) l.

(** [row["bucket"].startswith(p)] *)
Definition in_bucket (p : string) (r : Row) : bool :=
  match bucket r with
  | Some b => startswith p b
  | None => false
  end.

Definition has_bucket (r : Row) : bool :=
  match bucket r with Some _ => true | None => false end.

(** Lines 160-168 of [main].  A row without a bucket makes the string
    accessor fail: [None]. *)
Definition select (total : Z) (quotas : Z * Z * Z) (rows : list Row)
  : option (list Row) :=
  let df := sort_values rows in
  let '(p1_quota, p2_quota, p3_quota) := quotas in
  if forallb has_bucket df then
    let p1 := df_head p1_quota (List.filter (in_bucket "P1") df) in
    let p2 := df_head p2_quota (List.filter (in_bucket "P2") df) in
    let p3 := df_head p3_quota (List.filter (in_bucket "P3") df) in
    Some (df_head total (p1 ++ p2 ++ p3))
  else None.

(** The selection as the specification words it.  A row is of the bucket
    [p] when its bucket name starts with [p]. *)
Definition bucket_starts (p : string) (r : Row) : Prop :=
  exists b rest, bucket r = Some b /\ b = p +:+ rest.

(** [r1] may stand before [r2]: by score descending, then by publication
    descending. *)
Definition ranks_before (r1 r2 : Row) : Prop :=
  score r2 < score r1 \/ (score r1 = score r2 /\ published r2 <= published r1).

(** [kept P l sub]: [sub] holds the rows of [l] that satisfy [P], in the
    order of [l]. *)
Inductive kept (P : Row -> Prop) : list Row -> list Row -> Prop :=
| kept_nil : kept P [] []
| kept_take (x : Row) (l sub : list Row) :
    P x -> kept P l sub -> kept P (x :: l) (x :: sub)
| kept_skip (x : Row) (l sub : list Row) :
    ~ P x -> kept P l sub -> kept P (x :: l) sub.

End Selector.

(** ** Exporters *)

Module Exporters.
Import Text.

(** The digest entry of one pick. *)
Definition md_entry (r : Row) : string :=
  "- **[" +:+ pid r +:+ "](" +:+ url r +:+ ")**  " +:+ nl
  +:+ "  " +:+ title r +:+ "  " +:+ nl
  +:+ "  *" +:+ authors r +:+ "*  " +:+ nl
  +:+ "  _" +:+ slice_to 300 (abstract r) +:+ "..._" +:+ nl.

Definition digest (today_str : string) (picks : list Row) : string :=
  join nl (("# Weekly Radar " +:+ today_str +:+ nl) :: map md_entry picks).

Definition au_line (au : string) : string := "AU  - " +:+ strip au.

(** The lines of one bibliographic record. *)
Definition ris_record (r : Row) : list string :=
  [ "TY  - JOUR"; "TI  - " +:+ title r ]
  ++ map au_line (split ","%char (authors r))
  ++ [ "UR  - " +:+ url r; "ER  - "; "" ].

Definition ris_lines (picks : list Row) : list string :=
  concat (map ris_record picks).

Definition ris (picks : list Row) : string := join nl (ris_lines picks).

(** The author column of a row, as [main] stores it. *)
Definition join_authors (names : list string) : string := join ", " names.

End Exporters.

(** ** The run *)

Module Pipeline.
Import Text Ledger Classifier Selector Exporters.

(** [res.get_short_id().split("v")[0]] *)
Definition pid_of (res : Result) : string :=
  match split "v"%char (short_id res) with
  | h :: _ => h
  | [] => EmptyString
  end.

Definition title_of (res : Result) : string := strip (replace_nl (res_title res)).

Definition abstract_of (res : Result) : string :=
  strip (match res_summary res with Some s => s | None => EmptyString end).

Definition blob_of (res : Result) : string :=
  title_of res +:+ nl +:+ abstract_of res.

(** The dictionary appended to [rows] for a result classified as [b]. *)
Definition make_row (res : Result) (b : Best) : Row :=
  {| pid := pid_of res;
     title := title_of res;
     authors := join_authors (res_authors res);
     published := res_published res;
     url := entry_id res;
     bucket := best_bucket b;
     score := best_score b;
     abstract := abstract_of res |}.

(** The state of the fetch loop: the rows appended so far and the seen set. *)
Definition LoopState : Type := list Row * gset string.

(** One iteration of [for res in search.results()]. *)
Definition step (cfg : Config) (since : Z) (st : LoopState) (res : Result) : LoopState :=
  let '(rows, seen) := st in
  if res_published res <? since then st
  else
    let p := pid_of res in
    if decide (p ∈ seen) then st
    else
      let b := classify (BUCKETS cfg) (blob_of res) in
      if best_hits b <? MIN_HITS_ANY_BUCKET cfg then st
      else (rows ++ [make_row res b], {[ p ]} ∪ seen).

(** A result reaches the seen test of the loop and would pass the threshold:
    it is recent and its winning bucket has enough hits. *)
Definition qualifies (cfg : Config) (since : Z) (res : Result) : Prop :=
  since <= res_published res /\
  MIN_HITS_ANY_BUCKET cfg <= best_hits (classify (BUCKETS cfg) (blob_of res)).

Definition scan (cfg : Config) (since : Z) (results : list Result) (seen : gset string)
  : LoopState :=
  fold_left (step cfg since) results ([], seen).

(** How a run ends: nothing new, both exports written, or an exception
    after the ledger was saved. *)
Inductive Outcome : Type :=
| NoNew
| Written (picks : list Row) (md ris_text : string)
| Raised.

(** [main()]: from the ledger file and the fetched results to the new ledger
    file and the outcome. *)
Definition main (cfg : Config) (today_str : string) (since : Z)
    (file : option string) (results : list Result) : option string * Outcome :=
  let seen := load_seen file in
  let '(rows, seen') := scan cfg since results seen in
  let file' := Some (save_seen seen') in
  match rows with
  | [] => (file', NoNew)
  | _ =>
      match Allocator.ratio_counts (TOTAL_PICKS cfg) (RATIO cfg) with
      | None => (file', Raised)
      | Some quotas =>
          match select (TOTAL_PICKS cfg) quotas rows with
          | None => (file', Raised)
          | Some picks => (file', Written picks (digest today_str picks) (ris picks))
          end
      end
  end.

(** The picks a run exports, none when it exports nothing. *)
Definition picks_of (o : Outcome) : list Row :=
  match o with
  | Written picks _ _ => picks
  | _ => []
  end.


End Pipeline.

(** * Properties *)

Import Text Ledger Classifier Selector Exporters Pipeline.

(** ** Quota allocator *)

Section AllocatorFacts.
Import Allocator.

Lemma round_half_even_pos_nearest (p s : Z) :
  0 < s -> nearest_even p s (round_half_even_pos p s).
Proof.
  intros Hs. unfold nearest_even, round_half_even_pos.
  pose proof (Z.div_mod p s ltac:(lia)) as Hdm.
  pose proof (Z.mod_pos_bound p s Hs) as Hr.
  set (q := p / s) in *. set (r := p mod s) in *.
  destruct (Z.ltb_spec (2 * r) s) as [H1|H1].
  - split; [lia|]. intros Habs. lia.
  - destruct (Z.ltb_spec s (2 * r)) as [H2|H2].
    + split; [lia|]. intros Habs. lia.
    + destruct (Z.even q) eqn:He.
      * split; [lia|]. intros _. exact He.
      * split; [lia|]. intros _.
        rewrite Z.even_add, He. reflexivity.
Qed.

Lemma nearest_even_unique (p s x x' : Z) :
  0 < s -> nearest_even p s x -> nearest_even p s x' -> x = x'.
Proof.
  intros Hs [Hx Ex] [Hx' Ex'].
  assert (Hd : x = x' \/ x = x' + 1 \/ x' = x + 1) by nia.
  destruct Hd as [->|[->| ->]]; [reflexivity| |].
  - assert (Hx1 : Z.abs (2 * (s * (x' + 1)) - 2 * p) = s) by nia.
    assert (Hx2 : Z.abs (2 * (s * x') - 2 * p) = s) by nia.
    specialize (Ex Hx1). specialize (Ex' Hx2).
    rewrite Z.even_add, Ex' in Ex. discriminate.
  - assert (Hx1 : Z.abs (2 * (s * (x + 1)) - 2 * p) = s) by nia.
    assert (Hx2 : Z.abs (2 * (s * x) - 2 * p) = s) by nia.
    specialize (Ex Hx2). specialize (Ex' Hx1).
    rewrite Z.even_add, Ex in Ex'. discriminate.
Qed.

Lemma py_round_div_pos (p s : Z) :
  0 < s -> py_round_div p s = round_half_even_pos p s.
Proof.
  intros Hs. unfold py_round_div.
  destruct (Z.ltb_spec s 0); [lia|reflexivity].
Qed.

Lemma round_half_even_pos_nonneg (p s : Z) :
  0 <= p -> 0 < s -> 0 <= round_half_even_pos p s.
Proof.
  intros Hp Hs. unfold round_half_even_pos.
  pose proof (Z.div_pos p s Hp Hs).
  repeat match goal with |- context [if ?b then _ else _] => destruct b end; lia.
Qed.

Lemma ratio_counts_some (total a b c : Z) :
  a + b + c <> 0 ->
  ratio_counts total (a, b, c) =
    Some (py_round_div (total * a) (a + b + c),
          py_round_div (total * b) (a + b + c),
          total - py_round_div (total * a) (a + b + c)
                - py_round_div (total * b) (a + b + c)).
Proof.
  intros Hs. unfold ratio_counts.
  destruct (Z.eqb_spec (a + b + c) 0); [contradiction|reflexivity].
Qed.

(** A ratio that sums to zero makes the division fail. *)
Lemma ratio_counts_zero_sum (total a b c : Z) :
  a + b + c = 0 -> ratio_counts total (a, b, c) = None.
Proof. intros Hs. unfold ratio_counts. rewrite Hs. reflexivity. Qed.

End AllocatorFacts.

Example ratio_counts_shipped : Allocator.ratio_counts 10 (6, 3, 1) = Some (6, 3, 1).
Proof. reflexivity. Qed.

Example ratio_counts_thirds : Allocator.ratio_counts 10 (1, 1, 1) = Some (3, 3, 4).
Proof. reflexivity. Qed.

(** C1, as stated, fails: with total 3 and ratio (1, 1, 0) the allocator
    rounds 1.5 to 2 twice and returns (2, 2, -1), whose third quota is
    negative. *)
Lemma ratio_counts_negative_quota :
  Allocator.ratio_counts 3 (1, 1, 0) = Some (2, 2, -1) /\
  ~ (exists x y z, Allocator.ratio_counts 3 (1, 1, 0) = Some (x, y, z) /\
                   x + y + z = 3 /\ 0 <= x /\ 0 <= y /\ 0 <= z).
Proof.
  split; [reflexivity|].
  intros (x & y & z & Heq & _ & _ & _ & Hz).
  vm_compute in Heq. injection Heq as <- <- <-. lia.
Qed.

(** C1, amended: for a non-negative total and a ratio of non-negative
    integers with a positive sum (in the range where the double-precision
    quotient rounds as the exact one), [ratio_counts] returns quotas that sum
    to the total, the first two are non-negative, the third is at least -1,
    and it is non-negative whenever the third ratio component is positive. *)
Theorem ratio_counts_sum_and_bounds (total a b c : Z) :
  0 <= total -> 0 <= a -> 0 <= b -> 0 <= c -> 0 < a + b + c ->
  Allocator.double_exact total a b ->
  exists x y z,
    Allocator.ratio_counts total (a, b, c) = Some (x, y, z) /\
    x + y + z = total /\ 0 <= x /\ 0 <= y /\ -1 <= z /\ (0 < c -> 0 <= z).
Proof.
  intros HT Ha Hb Hc Hs _.
  rewrite ratio_counts_some by lia.
  rewrite !py_round_div_pos by lia.
  pose proof (round_half_even_pos_nearest (total * a) _ Hs) as [Hx _].
  pose proof (round_half_even_pos_nearest (total * b) _ Hs) as [Hy _].
  pose proof (round_half_even_pos_nonneg (total * a) _ ltac:(nia) Hs) as Hx0.
  pose proof (round_half_even_pos_nonneg (total * b) _ ltac:(nia) Hs) as Hy0.
  set (x := Allocator.round_half_even_pos (total * a) (a + b + c)) in *.
  set (y := Allocator.round_half_even_pos (total * b) (a + b + c)) in *.
  exists x, y, (total - x - y).
  split; [reflexivity|].
  split; [lia|]. split; [exact Hx0|]. split; [exact Hy0|].
  assert (Hsum : (a + b + c) * (x + y - total - 1) <= - (total * c)) by nia.
  split.
  - assert (x + y - total - 1 <= 0) by nia. lia.
  - intros Hc0.
    destruct (Z.eq_dec total 0) as [->|Hne].
    + assert (x = 0) by nia. assert (y = 0) by nia. lia.
    + assert (x + y - total - 1 < 0) by nia. lia.
Qed.

Lemma ratio_counts_sum_and_bounds_witness :
  exists x y z,
    Allocator.ratio_counts 10 (6, 3, 1) = Some (x, y, z) /\
    x + y + z = 10 /\ 0 <= x /\ 0 <= y /\ -1 <= z /\ (0 < 1 -> 0 <= z).
Proof.
  apply (ratio_counts_sum_and_bounds 10 6 3 1); try lia.
  unfold Allocator.double_exact. split; vm_compute; reflexivity.
Defined.

(** C2, as stated, fails: with total 10 and ratio (1, 2, 1) the first
    quotient is the tie 2.5, which the allocator rounds to the even 2, where
    ties away from zero give 3. *)
Lemma ratio_counts_tie_to_even :
  Allocator.ratio_counts 10 (1, 2, 1) = Some (2, 5, 3) /\
  Allocator.ratio_counts_ties_away 10 (1, 2, 1) = Some (3, 5, 2) /\
  Allocator.ratio_counts 10 (1, 2, 1) <> Allocator.ratio_counts_ties_away 10 (1, 2, 1).
Proof. repeat split; try reflexivity. vm_compute. discriminate. Qed.

(** C2, amended: for a non-negative total and ratio with a positive sum [s]
    (in the range where the double-precision quotient rounds as the exact
    one), the first two quotas are the integers nearest to [T*a/s] and
    [T*b/s], a tie going to the even neighbour, and the third quota is the
    total minus the first two. *)
Theorem ratio_counts_round_half_even (total a b c : Z) :
  0 <= total -> 0 <= a -> 0 <= b -> 0 <= c -> 0 < a + b + c ->
  Allocator.double_exact total a b ->
  exists x y z,
    Allocator.ratio_counts total (a, b, c) = Some (x, y, z) /\
    Allocator.nearest_even (total * a) (a + b + c) x /\
    (forall x', Allocator.nearest_even (total * a) (a + b + c) x' -> x' = x) /\
    Allocator.nearest_even (total * b) (a + b + c) y /\
    (forall y', Allocator.nearest_even (total * b) (a + b + c) y' -> y' = y) /\
    z = total - x - y.
Proof.
  intros HT Ha Hb Hc Hs _.
  rewrite ratio_counts_some by lia.
  rewrite !py_round_div_pos by lia.
  pose proof (round_half_even_pos_nearest (total * a) _ Hs) as Hx.
  pose proof (round_half_even_pos_nearest (total * b) _ Hs) as Hy.
  eexists _, _, _. split; [reflexivity|].
  split; [exact Hx|]. split.
  { intros x' Hx'. exact (nearest_even_unique _ _ _ _ Hs Hx' Hx). }
  split; [exact Hy|]. split.
  { intros y' Hy'. exact (nearest_even_unique _ _ _ _ Hs Hy' Hy). }
  reflexivity.
Qed.

Lemma ratio_counts_round_half_even_witness :
  exists x y z,
    Allocator.ratio_counts 10 (1, 2, 1) = Some (x, y, z) /\
    Allocator.nearest_even (10 * 1) (1 + 2 + 1) x /\
    (forall x', Allocator.nearest_even (10 * 1) (1 + 2 + 1) x' -> x' = x) /\
    Allocator.nearest_even (10 * 2) (1 + 2 + 1) y /\
    (forall y', Allocator.nearest_even (10 * 2) (1 + 2 + 1) y' -> y' = y) /\
    z = 10 - x - y.
Proof.
  apply (ratio_counts_round_half_even 10 1 2 1); try lia.
  unfold Allocator.double_exact. split; vm_compute; reflexivity.
Defined.

(** ** Bucket classifier *)

Section ClassifierFacts.
Variable blob : string.

(** Hits and score of one table entry on [blob]. *)
Let hits_of (e : string * list string) : Z := fst (count_hits blob (snd e)).
Let score_of (e : string * list string) : Z := snd (count_hits blob (snd e)).
Let won (e : string * list string) : Best :=
  mkBest (Some (fst e)) (hits_of e) (score_of e).

Lemma count_hits_fold (t : string) (kws : list string) (h s : Z) :
  let r := fold_left
    (fun (acc : Z * Z) kw =>
       if contains kw t then (fst acc + 1, snd acc + 1) else acc) kws (h, s) in
  fst r - h = snd r - s /\ h <= fst r.
Proof.
  revert h s. induction kws as [|kw kws IH]; intros h s; simpl.
  - lia.
  - destruct (contains kw t); simpl.
    + specialize (IH (h + 1) (s + 1)). simpl in IH. lia.
    + apply IH.
Qed.

Lemma count_hits_same (text : string) (kws : list string) :
  fst (count_hits text kws) = snd (count_hits text kws) /\
  0 <= snd (count_hits text kws).
Proof.
  unfold count_hits.
  pose proof (count_hits_fold (norm text) kws 0 0) as H. simpl in H. lia.
Qed.

Lemma best_step_won (b : Best) (e : string * list string) :
  best_step blob b e = if best_score b <? score_of e then won e else b.
Proof.
  unfold best_step, won, hits_of, score_of.
  destruct (count_hits blob (snd e)) as [h sc]. reflexivity.
Qed.

Lemma classify_snoc (buckets : Buckets) (e : string * list string) :
  classify (buckets ++ [e]) blob = best_step blob (classify buckets blob) e.
Proof. unfold classify. rewrite fold_left_app. reflexivity. Qed.

Lemma fold_best_keep (l : Buckets) (b : Best) :
  (forall e, In e l -> score_of e <= best_score b) ->
  fold_left (best_step blob) l b = b.
Proof.
  revert b. induction l as [|e l IH]; intros b Hle; simpl; [reflexivity|].
  rewrite best_step_won.
  pose proof (Hle e (or_introl eq_refl)) as He.
  destruct (Z.ltb_spec (best_score b) (score_of e)); [lia|].
  apply IH. intros e' He'. apply Hle. right. exact He'.
Qed.

Lemma fold_best_below (l : Buckets) (b : Best) (m : Z) :
  best_score b < m ->
  (forall e, In e l -> score_of e < m) ->
  best_score (fold_left (best_step blob) l b) < m.
Proof.
  revert b. induction l as [|e l IH]; intros b Hb Hlt; simpl; [exact Hb|].
  apply IH.
  - rewrite best_step_won.
    destruct (Z.ltb_spec (best_score b) (score_of e)); [|exact Hb].
    simpl. apply Hlt. left. reflexivity.
  - intros e' He'. apply Hlt. right. exact He'.
Qed.

Lemma fold_best_upper (l : Buckets) (b : Best) :
  best_score b <= best_score (fold_left (best_step blob) l b) /\
  (forall e, In e l -> score_of e <= best_score (fold_left (best_step blob) l b)).
Proof.
  revert b. induction l as [|e l IH]; intros b; simpl.
  - split; [lia|]. intros e [].
  - destruct (IH (best_step blob b e)) as [IH1 IH2].
    assert (Hs : best_score b <= best_score (best_step blob b e) /\
                 score_of e <= best_score (best_step blob b e)).
    { rewrite best_step_won.
      destruct (Z.ltb_spec (best_score b) (score_of e)); simpl; lia. }
    split; [lia|].
    intros e' [<-|He']; [lia|]. apply IH2. exact He'.
Qed.

Lemma fold_best_choice (l : Buckets) (b : Best) :
  fold_left (best_step blob) l b = b \/
  exists e, In e l /\ fold_left (best_step blob) l b = won e.
Proof.
  revert b. induction l as [|e l IH]; intros b; simpl; [left; reflexivity|].
  destruct (IH (best_step blob b e)) as [Heq|(e' & He' & Heq)].
  - rewrite Heq, best_step_won.
    destruct (best_score b <? score_of e); [|left; reflexivity].
    right. exists e. split; [left; reflexivity|reflexivity].
  - right. exists e'. split; [right; exact He'|exact Heq].
Qed.

(** The first entry that reaches the greatest score wins. *)
Lemma classify_first_max (pre post : Buckets) (e : string * list string) :
  (forall e', In e' pre -> score_of e' < score_of e) ->
  (forall e', In e' post -> score_of e' <= score_of e) ->
  classify (pre ++ e :: post) blob = won e.
Proof.
  intros Hpre Hpost. unfold classify. rewrite fold_left_app. simpl.
  assert (Hb : best_score (fold_left (best_step blob) pre best_init) < score_of e).
  { apply fold_best_below; [|exact Hpre].
    simpl. pose proof (count_hits_same blob (snd e)). unfold score_of. lia. }
  rewrite best_step_won.
  destruct (Z.ltb_spec (best_score (fold_left (best_step blob) pre best_init))
                       (score_of e)); [|lia].
  apply fold_best_keep. exact Hpost.
Qed.

(** On a table that is not empty the winner is an entry of the table, its
    score is the greatest of the table, and hits and score coincide. *)
Lemma classify_nonempty (buckets : Buckets) :
  buckets <> [] ->
  exists e, In e buckets /\ classify buckets blob = won e /\
            (forall e', In e' buckets -> score_of e' <= score_of e) /\
            hits_of e = score_of e /\ 0 <= hits_of e.
Proof.
  intros Hne. destruct buckets as [|e0 l]; [contradiction|].
  pose proof (fold_best_upper (e0 :: l) best_init) as [_ Hup].
  pose proof (fold_best_choice (e0 :: l) best_init) as [Heq|(e & He & Heq)].
  - exfalso. specialize (Hup e0 (or_introl eq_refl)).
    fold (classify (e0 :: l) blob) in Heq, Hup. rewrite Heq in Hup. simpl in Hup.
    pose proof (count_hits_same blob (snd e0)). unfold score_of in Hup. lia.
  - exists e. fold (classify (e0 :: l) blob) in Heq, Hup.
    split; [exact He|]. split; [exact Heq|]. split.
    + intros e' He'. specialize (Hup e' He'). rewrite Heq in Hup. exact Hup.
    + pose proof (count_hits_same blob (snd e)). unfold hits_of, score_of. lia.
Qed.

End ClassifierFacts.

Example classify_scenario :
  classify [("A", ["robot"]); ("B", ["diffusion"])] "A robot uses a diffusion model"
  = mkBest (Some "A") 1 1.
Proof. reflexivity. Qed.

(** C3: the classifier goes through the table in declaration order and
    replaces the current best only on a strictly greater score, so the first
    bucket that reaches the greatest score wins; in the scenario of the two
    buckets A and B, both score 1 and A wins. *)
Theorem classify_tie_goes_to_first
    (pre post : Buckets) (name : string) (kws : list string) (blob : string) :
  (forall e, In e pre -> snd (count_hits blob (snd e)) < snd (count_hits blob kws)) ->
  (forall e, In e post -> snd (count_hits blob (snd e)) <= snd (count_hits blob kws)) ->
  classify (pre ++ (name, kws) :: post) blob
    = mkBest (Some name) (fst (count_hits blob kws)) (snd (count_hits blob kws)) /\
  (forall (buckets : Buckets) (e : string * list string),
     classify (buckets ++ [e]) blob =
       if best_score (classify buckets blob) <? snd (count_hits blob (snd e))
       then mkBest (Some (fst e)) (fst (count_hits blob (snd e)))
                   (snd (count_hits blob (snd e)))
       else classify buckets blob) /\
  (count_hits "A robot uses a diffusion model" ["robot"] = (1, 1) /\
   count_hits "A robot uses a diffusion model" ["diffusion"] = (1, 1) /\
   best_bucket (classify [("A", ["robot"]); ("B", ["diffusion"])]
                         "A robot uses a diffusion model") = Some "A").
Proof.
  intros Hpre Hpost. split; [|split].
  - exact (classify_first_max blob pre post (name, kws) Hpre Hpost).
  - intros buckets e. rewrite classify_snoc. apply best_step_won.
  - repeat split; reflexivity.
Qed.

Lemma classify_tie_goes_to_first_witness :
  classify ([] ++ ("A", ["robot"]) :: [("B", ["diffusion"])])
           "A robot uses a diffusion model"
    = mkBest (Some "A")
        (fst (count_hits "A robot uses a diffusion model" ["robot"]))
        (snd (count_hits "A robot uses a diffusion model" ["robot"])).
Proof.
  apply (classify_tie_goes_to_first [] [("B", ["diffusion"])] "A" ["robot"]
           "A robot uses a diffusion model").
  - intros e [].
  - intros e [<-|[]]. vm_compute. discriminate.
Defined.

(** ** The fetch loop *)

Section LoopFacts.
Variables (cfg : Config) (since : Z).

(** The three tests of one iteration, in the order of the source. *)
Lemma step_skip_old (rows : list Row) (seen : gset string) (res : Result) :
  res_published res < since -> step cfg since (rows, seen) res = (rows, seen).
Proof.
  intros H. unfold step. destruct (Z.ltb_spec (res_published res) since); [reflexivity|lia].
Qed.

Lemma step_skip_seen (rows : list Row) (seen : gset string) (res : Result) :
  pid_of res ∈ seen -> step cfg since (rows, seen) res = (rows, seen).
Proof.
  intros H. unfold step. destruct (res_published res <? since); [reflexivity|].
  destruct (decide (pid_of res ∈ seen)); [reflexivity|contradiction].
Qed.

Lemma step_skip_low (rows : list Row) (seen : gset string) (res : Result) :
  best_hits (classify (BUCKETS cfg) (blob_of res)) < MIN_HITS_ANY_BUCKET cfg ->
  step cfg since (rows, seen) res = (rows, seen).
Proof.
  intros H. unfold step. destruct (res_published res <? since); [reflexivity|].
  destruct (decide (pid_of res ∈ seen)); [reflexivity|].
  destruct (Z.ltb_spec (best_hits (classify (BUCKETS cfg) (blob_of res)))
                       (MIN_HITS_ANY_BUCKET cfg)); [reflexivity|lia].
Qed.

Lemma step_keep (rows : list Row) (seen : gset string) (res : Result) :
  since <= res_published res ->
  pid_of res ∉ seen ->
  MIN_HITS_ANY_BUCKET cfg <= best_hits (classify (BUCKETS cfg) (blob_of res)) ->
  step cfg since (rows, seen) res
    = (rows ++ [make_row res (classify (BUCKETS cfg) (blob_of res))],
       {[ pid_of res ]} ∪ seen).
Proof.
  intros H1 H2 H3. unfold step.
  destruct (Z.ltb_spec (res_published res) since); [lia|].
  destruct (decide (pid_of res ∈ seen)); [contradiction|].
  destruct (Z.ltb_spec (best_hits (classify (BUCKETS cfg) (blob_of res)))
                       (MIN_HITS_ANY_BUCKET cfg)); [lia|reflexivity].
Qed.

Lemma step_cases (rows : list Row) (seen : gset string) (res : Result) :
  (step cfg since (rows, seen) res = (rows, seen) /\
   (~ qualifies cfg since res \/ pid_of res ∈ seen)) \/
  (step cfg since (rows, seen) res
     = (rows ++ [make_row res (classify (BUCKETS cfg) (blob_of res))],
        {[ pid_of res ]} ∪ seen) /\
   qualifies cfg since res /\ (pid_of res ∉ seen)).
Proof.
  unfold qualifies.
  destruct (Z.lt_ge_cases (res_published res) since) as [Hold|Hnew].
  { left. split; [apply step_skip_old; exact Hold|left; lia]. }
  destruct (decide (pid_of res ∈ seen)) as [Hin|Hout].
  { left. split; [apply step_skip_seen; exact Hin|right; exact Hin]. }
  destruct (Z.lt_ge_cases (best_hits (classify (BUCKETS cfg) (blob_of res)))
                          (MIN_HITS_ANY_BUCKET cfg)) as [Hlow|Hok].
  { left. split; [apply step_skip_low; exact Hlow|left; lia]. }
  right. split; [apply step_keep; assumption|]. split; [split; assumption|exact Hout].
Qed.

(** What the loop has done when it ends, from any starting state. *)
Lemma loop_invariant (results : list Result) (rows0 : list Row) (seen0 : gset string) :
  exists added,
    fst (fold_left (step cfg since) results (rows0, seen0)) = rows0 ++ added /\
    (forall row, In row added ->
       exists res, In res results /\ qualifies cfg since res /\ (pid_of res ∉ seen0) /\
                   row = make_row res (classify (BUCKETS cfg) (blob_of res))) /\
    (forall p, p ∈ snd (fold_left (step cfg since) results (rows0, seen0)) <->
       p ∈ seen0 \/ exists res, In res results /\ qualifies cfg since res /\ p = pid_of res).
Proof.
  revert rows0 seen0. induction results as [|res results IH]; intros rows0 seen0.
  - exists []. simpl. rewrite app_nil_r. split; [reflexivity|]. split.
    + intros row [].
    + intros p. split; [auto|]. intros [H|(res & [] & _)]. exact H.
  - cbn [fold_left].
    destruct (step_cases rows0 seen0 res) as [[-> Hwhy]|(-> & Hq & Hout)].
    + destruct (IH rows0 seen0) as (added & Hrows & Hadded & Hseen).
      exists added. split; [exact Hrows|]. split.
      * intros row Hrow. destruct (Hadded row Hrow) as (r & Hr & Hrest).
        exists r. split; [right; exact Hr|exact Hrest].
      * intros p. rewrite Hseen. split.
        -- intros [H|(r & Hr & Hrest)]; [left; exact H|].
           right. exists r. split; [right; exact Hr|exact Hrest].
        -- intros [H|(r & [<-|Hr] & Hrq & ->)]; [left; exact H| |].
           ++ destruct Hwhy as [Hn|Hin]; [contradiction|left; exact Hin].
           ++ right. exists r. split; [exact Hr|]. split; [exact Hrq|reflexivity].
    + set (row := make_row res (classify (BUCKETS cfg) (blob_of res))).
      destruct (IH (rows0 ++ [row]) ({[ pid_of res ]} ∪ seen0))
        as (added & Hrows & Hadded & Hseen).
      exists (row :: added). split.
      { rewrite Hrows, <- app_assoc. reflexivity. }
      split.
      * intros r [<-|Hr].
        -- exists res. split; [left; reflexivity|]. split; [exact Hq|].
           split; [exact Hout|reflexivity].
        -- destruct (Hadded r Hr) as (r' & Hr' & Hq' & Hout' & Heq).
           exists r'. split; [right; exact Hr'|]. split; [exact Hq'|].
           split; [|exact Heq].
           intros Hc. apply Hout'. apply elem_of_union. right. exact Hc.
      * intros p. rewrite Hseen. split.
        -- intros [H|(r & Hr & Hrest)].
           ++ apply elem_of_union in H as [H|H]; [|left; exact H].
              apply elem_of_singleton in H. right. exists res.
              split; [left; reflexivity|]. split; [exact Hq|exact H].
           ++ right. exists r. split; [right; exact Hr|exact Hrest].
        -- intros [H|(r & [<-|Hr] & Hrq & ->)].
           ++ left. apply elem_of_union. right. exact H.
           ++ left. apply elem_of_union. left. apply elem_of_singleton. reflexivity.
           ++ right. exists r. split; [exact Hr|]. split; [exact Hrq|reflexivity].
Qed.

End LoopFacts.

Example threshold_two_hits_pass :
  best_hits (classify (BUCKETS shipped)
               (blob_of (mkResult "2401.00001v2" "Robot SLAM" (Some "A study.") 5
                                  ["A. Author"] "http://arxiv.org/abs/2401.00001v2")))
  = 2.
Proof. reflexivity. Qed.

(** C7: a candidate that reaches the threshold test (recent and not seen) is
    discarded exactly when the hit count of its winning bucket is strictly
    below the configured minimum, 2 as shipped; with a hit count equal to the
    minimum its row is appended to the pool. *)
Theorem threshold_is_strict
    (cfg : Config) (since : Z) (rows : list Row) (seen : gset string) (res : Result) :
  since <= res_published res ->
  pid_of res ∉ seen ->
  (fst (step cfg since (rows, seen) res) = rows <->
   best_hits (classify (BUCKETS cfg) (blob_of res)) < MIN_HITS_ANY_BUCKET cfg) /\
  (MIN_HITS_ANY_BUCKET cfg <= best_hits (classify (BUCKETS cfg) (blob_of res)) ->
   fst (step cfg since (rows, seen) res)
     = rows ++ [make_row res (classify (BUCKETS cfg) (blob_of res))]) /\
  MIN_HITS_ANY_BUCKET shipped = 2.
Proof.
  intros Hnew Hout. split; [|split; [|reflexivity]].
  - split.
    + intros Heq.
      destruct (Z.lt_ge_cases (best_hits (classify (BUCKETS cfg) (blob_of res)))
                              (MIN_HITS_ANY_BUCKET cfg)) as [Hlow|Hok]; [exact Hlow|].
      rewrite (step_keep cfg since rows seen res Hnew Hout Hok) in Heq.
      simpl in Heq. apply (f_equal (@length Row)) in Heq.
      rewrite length_app in Heq. simpl in Heq. lia.
    + intros Hlow. rewrite step_skip_low by exact Hlow. reflexivity.
  - intros Hok. rewrite step_keep by assumption. reflexivity.
Qed.

Lemma threshold_is_strict_witness :
  let res := mkResult "2401.00001v2" "Robot SLAM" (Some "A study.") 5
                      ["A. Author"] "http://arxiv.org/abs/2401.00001v2" in
  (fst (step shipped 0 ([], ∅) res) = [] <->
   best_hits (classify (BUCKETS shipped) (blob_of res)) < MIN_HITS_ANY_BUCKET shipped) /\
  (MIN_HITS_ANY_BUCKET shipped <= best_hits (classify (BUCKETS shipped) (blob_of res)) ->
   fst (step shipped 0 ([], ∅) res)
     = [] ++ [make_row res (classify (BUCKETS shipped) (blob_of res))]) /\
  MIN_HITS_ANY_BUCKET shipped = 2.
Proof.
  intros res. apply (threshold_is_strict shipped 0 [] ∅ res).
  - simpl. lia.
  - apply not_elem_of_empty.
Defined.

(** C6, as stated, fails: on a text that matches no keyword every bucket
    scores 0 and the first bucket is still selected, with 0 hits, although
    every keyword list is non-empty. *)
Lemma classify_selects_zero_hit_bucket :
  Forall (fun e : string * list string => snd e <> [])
         [("A", ["robot"]); ("B", ["diffusion"])] /\
  count_hits "hello" ["robot"] = (0, 0) /\
  classify [("A", ["robot"]); ("B", ["diffusion"])] "hello" = mkBest (Some "A") 0 0.
Proof.
  split; [|split; reflexivity].
  repeat constructor; simpl; discriminate.
Qed.

(** C6, amended: on a bucket table that is not empty the classifier's output
    bucket is one of the configured bucket names, with the hit count of that
    bucket; the winning bucket has 0 hits exactly when every bucket has 0
    hits on the text, and the winner is then the first bucket of the table;
    under a positive minimum-hits threshold the loop of [main] then drops the
    item. *)
Theorem classify_bucket_is_configured (buckets : Buckets) (blob : string) :
  buckets <> [] ->
  exists name kws,
    In (name, kws) buckets /\
    best_bucket (classify buckets blob) = Some name /\
    best_hits (classify buckets blob) = fst (count_hits blob kws) /\
    (best_hits (classify buckets blob) = 0 <->
     forall e, In e buckets -> fst (count_hits blob (snd e)) = 0) /\
    (best_hits (classify buckets blob) = 0 ->
     option_map fst (hd_error buckets) = Some name) /\
    (forall cfg since rows seen res,
       BUCKETS cfg = buckets -> blob_of res = blob ->
       0 < MIN_HITS_ANY_BUCKET cfg ->
       best_hits (classify buckets blob) = 0 ->
       step cfg since (rows, seen) res = (rows, seen)).
Proof.
  intros Hne.
  assert (Hdrop : forall cfg since rows seen res,
            BUCKETS cfg = buckets -> blob_of res = blob ->
            0 < MIN_HITS_ANY_BUCKET cfg ->
            best_hits (classify buckets blob) = 0 ->
            step cfg since (rows, seen) res = (rows, seen)).
  { intros cfg since rows seen res <- <- Hmin H0.
    apply step_skip_low. lia. }
  destruct (classify_nonempty blob buckets Hne)
    as ([name kws] & Hin & Heq & Hmax & Hhs & Hh0).
  simpl in *. exists name, kws.
  split; [exact Hin|]. rewrite Heq. simpl.
  split; [reflexivity|]. split; [reflexivity|].
  assert (Hall : fst (count_hits blob kws) = 0 ->
                 forall e, In e buckets -> fst (count_hits blob (snd e)) = 0).
  { intros H0 e He. specialize (Hmax e He).
    pose proof (count_hits_same blob (snd e)). lia. }
  split; [split|split].
  - exact Hall.
  - intros H. exact (H (name, kws) Hin).
  - intros H0. specialize (Hall H0).
    destruct buckets as [|e0 l]; [contradiction|].
    assert (Hfirst : classify ([] ++ e0 :: l) blob
                     = mkBest (Some (fst e0)) (fst (count_hits blob (snd e0)))
                              (snd (count_hits blob (snd e0)))).
    { apply classify_first_max.
      - intros e' [].
      - intros e' He'.
        pose proof (Hall e' (or_intror He')) as H1.
        pose proof (Hall e0 (or_introl eq_refl)) as H2.
        pose proof (count_hits_same blob (snd e')).
        pose proof (count_hits_same blob (snd e0)). lia. }
    simpl in Hfirst. rewrite Hfirst in Heq. injection Heq as Hn _ _.
    simpl. rewrite Hn. reflexivity.
  - intros cfg since rows seen res Hb Hbl Hmin H0.
    apply (Hdrop cfg since rows seen res Hb Hbl Hmin).
    rewrite Heq. exact H0.
Qed.

Lemma classify_bucket_is_configured_witness :
  exists name kws,
    In (name, kws) (BUCKETS shipped) /\
    best_bucket (classify (BUCKETS shipped) "hello") = Some name /\
    best_hits (classify (BUCKETS shipped) "hello") = fst (count_hits "hello" kws) /\
    (best_hits (classify (BUCKETS shipped) "hello") = 0 <->
     forall e, In e (BUCKETS shipped) -> fst (count_hits "hello" (snd e)) = 0) /\
    (best_hits (classify (BUCKETS shipped) "hello") = 0 ->
     option_map fst (hd_error (BUCKETS shipped)) = Some name) /\
    (forall cfg since rows seen res,
       BUCKETS cfg = BUCKETS shipped -> blob_of res = "hello" ->
       0 < MIN_HITS_ANY_BUCKET cfg ->
       best_hits (classify (BUCKETS shipped) "hello") = 0 ->
       step cfg since (rows, seen) res = (rows, seen)).
Proof.
  apply (classify_bucket_is_configured (BUCKETS shipped) "hello").
  simpl. discriminate.
Defined.

(** ** Selector *)

Section SelectorFacts.

(** The order of the sorted frame, as a relation. *)
Let before (r1 r2 : Row) : Prop := row_ge r1 r2 = true.

Lemma row_ge_total (r1 r2 : Row) : row_ge r1 r2 = false -> row_ge r2 r1 = true.
Proof.
  unfold row_ge. intros H.
  apply orb_false_iff in H as [H1 H2]. apply Z.ltb_ge in H1.
  apply andb_false_iff in H2.
  apply orb_true_iff.
  destruct (Z.ltb_spec (score r1) (score r2)); [left; reflexivity|right].
  apply andb_true_iff. split; [apply Z.eqb_eq; lia|].
  apply Z.leb_le. destruct H2 as [H2|H2].
  - apply Z.eqb_neq in H2. lia.
  - apply Z.leb_gt in H2. lia.
Qed.

Lemma row_ge_trans (r1 r2 r3 : Row) :
  row_ge r1 r2 = true -> row_ge r2 r3 = true -> row_ge r1 r3 = true.
Proof.
  unfold row_ge. intros H12 H23.
  apply orb_true_iff in H12. apply orb_true_iff in H23. apply orb_true_iff.
  rewrite !andb_true_iff, !Z.ltb_lt, !Z.eqb_eq, !Z.leb_le in *. lia.
Qed.

Lemma insert_row_perm (r : Row) (l : list Row) :
  Permutation (insert_row r l) (r :: l).
Proof.
  induction l as [|h t IH]; simpl; [reflexivity|].
  destruct (row_ge r h); [reflexivity|].
  rewrite IH. apply perm_swap.
Qed.

Lemma sort_values_perm (rows : list Row) : Permutation (sort_values rows) rows.
Proof.
  induction rows as [|r rest IH]; simpl; [reflexivity|].
  rewrite insert_row_perm. constructor. exact IH.
Qed.

Lemma insert_row_hd (a r : Row) (l : list Row) :
  before a r -> HdRel before a l -> HdRel before a (insert_row r l).
Proof.
  intros Har Hal. destruct l as [|h t]; simpl.
  - constructor. exact Har.
  - destruct (row_ge r h); constructor; [exact Har|].
    inversion Hal; assumption.
Qed.

Lemma insert_row_sorted (r : Row) (l : list Row) :
  Sorted before l -> Sorted before (insert_row r l).
Proof.
  induction l as [|h t IH]; intros Hs; simpl.
  - repeat constructor.
  - destruct (row_ge r h) eqn:E.
    + constructor; [exact Hs|]. constructor. exact E.
    + inversion Hs as [|? ? Ht Hh]; subst.
      constructor; [apply IH; exact Ht|].
      apply insert_row_hd; [apply row_ge_total; exact E|exact Hh].
Qed.

Lemma sort_values_sorted (rows : list Row) :
  StronglySorted before (sort_values rows).
Proof.
  apply Sorted_StronglySorted.
  { intros a b c. apply row_ge_trans. }
  induction rows as [|r rest IH]; simpl; [constructor|].
  apply insert_row_sorted. exact IH.
Qed.

Lemma filter_strongly_sorted (f : Row -> bool) (l : list Row) :
  StronglySorted before l -> StronglySorted before (List.filter f l).
Proof.
  induction 1 as [|a l Hs IH Hall]; simpl; [constructor|].
  destruct (f a); [|exact IH].
  constructor; [exact IH|].
  rewrite List.Forall_forall in *. intros x Hx.
  apply Hall. apply filter_In in Hx. tauto.
Qed.

Lemma filter_perm (f : Row -> bool) (l l' : list Row) :
  Permutation l l' -> Permutation (List.filter f l) (List.filter f l').
Proof.
  induction 1 as [|x l l' _ IH|x y l|l l' l'' _ IH1 _ IH2]; simpl.
  - constructor.
  - destruct (f x); [constructor|]; exact IH.
  - destruct (f x), (f y); try reflexivity. apply perm_swap.
  - etransitivity; eassumption.
Qed.

Lemma df_head_nonneg {A : Type} (n : Z) (l : list A) :
  0 <= n -> df_head n l = firstn (Z.to_nat n) l.
Proof.
  intros Hn. unfold df_head. destruct (Z.leb_spec 0 n); [reflexivity|lia].
Qed.

(** The first rows of a sorted list stand before all the rows left out. *)
Lemma firstn_top (n : nat) (l : list Row) :
  StronglySorted before l ->
  exists rest, l = firstn n l ++ rest /\
               forall x y, In x (firstn n l) -> In y rest -> before x y.
Proof.
  intros Hs. exists (skipn n l). split; [symmetry; apply firstn_skipn|].
  intros x y Hx Hy. rewrite <- (firstn_skipn n l) in Hs.
  apply (StronglySorted_app_1_elem_of _ _ _ x y Hs); apply list_elem_of_In; assumption.
Qed.

Lemma forallb_has_bucket_perm (l l' : list Row) :
  Permutation l l' -> forallb has_bucket l = true -> forallb has_bucket l' = true.
Proof.
  intros Hp H. rewrite forallb_forall in *. intros x Hx.
  apply H. apply (Permutation_in x (Permutation_sym Hp)). exact Hx.
Qed.

End SelectorFacts.

Example select_scenario :
  let r (i : string) (b : string) (s t : Z) := mkRow i i "" t "" (Some b) s "" in
  option_map (map pid)
    (select 3 (1, 1, 1)
       [ r "a" "P2_x" 2 5; r "b" "P1_x" 2 1; r "c" "P1_x" 3 1; r "d" "P1_x" 2 7 ])
  = Some ["c"; "a"].
Proof. reflexivity. Qed.

(** ** Strings *)

Section StringFacts.

Lemma str_app_cons (c : ascii) (s t : string) :
  String c s +:+ t = String c (s +:+ t).
Proof. reflexivity. Qed.

Lemma str_app_nil_l (t : string) : "" +:+ t = t.
Proof. reflexivity. Qed.

Lemma str_app_nil_r (s : string) : s +:+ "" = s.
Proof.
  induction s as [|c s IH]; [reflexivity|].
  rewrite str_app_cons, IH. reflexivity.
Qed.

Lemma str_app_assoc (s t u : string) : (s +:+ t) +:+ u = s +:+ (t +:+ u).
Proof.
  induction s as [|c s IH]; [reflexivity|].
  rewrite !str_app_cons, IH. reflexivity.
Qed.

Lemma forall_chars_app (f : ascii -> bool) (s t : string) :
  forall_chars f (s +:+ t) = forall_chars f s && forall_chars f t.
Proof.
  induction s as [|c s IH]; [reflexivity|].
  rewrite str_app_cons. simpl. rewrite IH, andb_assoc. reflexivity.
Qed.

Lemma slice_to_prefix (n : nat) (s : string) :
  exists rest, s = slice_to n s +:+ rest /\
               String.length (slice_to n s) = Nat.min n (String.length s).
Proof.
  revert s. induction n as [|n IH]; intros s.
  - exists s. destruct s; split; reflexivity.
  - destruct s as [|c s]; [exists ""; split; reflexivity|].
    destruct (IH s) as (rest & Heq & Hlen). exists rest. simpl. split.
    + rewrite str_app_cons, <- Heq. reflexivity.
    + rewrite Hlen. reflexivity.
Qed.

Lemma slice_to_all (n : nat) (s : string) :
  (String.length s <= n)%nat -> slice_to n s = s.
Proof.
  revert s. induction n as [|n IH]; intros [|c s] Hlen; simpl in *;
    try reflexivity; try lia.
  rewrite IH by lia. reflexivity.
Qed.

End StringFacts.

(** ** Exporters *)

(** What a run writes is the two exports of its picks. *)
Lemma main_written (cfg : Config) (today_str : string) (since : Z)
    (file : option string) (results : list Result)
    (picks : list Row) (md rs : string) :
  snd (main cfg today_str since file results) = Written picks md rs ->
  md = digest today_str picks /\ rs = ris picks /\
  exists quotas,
    Allocator.ratio_counts (TOTAL_PICKS cfg) (RATIO cfg) = Some quotas /\
    select (TOTAL_PICKS cfg) quotas (fst (scan cfg since results (load_seen file)))
      = Some picks.
Proof.
  unfold main. destruct (scan cfg since results (load_seen file)) as [rows seen'].
  destruct rows as [|r rows]; [discriminate|].
  destruct (Allocator.ratio_counts _ _) as [q|]; [|discriminate].
  destruct (select _ _ _) as [picks'|] eqn:Hsel; [|discriminate].
  cbn [snd fst]. intros [= <- <- <-].
  split; [reflexivity|]. split; [reflexivity|]. exists q. split; [reflexivity|exact Hsel].
Qed.

(** The text concatenated from a list of texts. *)
Lemma concat_str_app (l1 l2 : list string) :
  fold_right String.append "" (l1 ++ l2)
  = fold_right String.append "" l1 +:+ fold_right String.append "" l2.
Proof.
  induction l1 as [|x l1 IH]; [reflexivity|].
  cbn [app fold_right]. rewrite IH, str_app_assoc. reflexivity.
Qed.

(** [sep.join] of a list that is not empty: the first text, then each other
    text behind the separator. *)
Lemma join_cons_all (sep x : string) (l : list string) :
  join sep (x :: l)
  = x +:+ fold_right String.append "" (map (fun y => sep +:+ y) l).
Proof.
  revert x. induction l as [|y l IH]; intros x.
  - cbn [join map fold_right]. rewrite str_app_nil_r. reflexivity.
  - change (join sep (x :: y :: l)) with (x +:+ sep +:+ join sep (y :: l)).
    rewrite IH. cbn [map fold_right]. rewrite str_app_assoc. reflexivity.
Qed.

(** The shape of one digest entry. *)
Lemma md_entry_shape (r : Row) :
  exists lead shown rest,
    md_entry r = lead +:+ shown +:+ "..." +:+ "_" +:+ nl /\
    lead = "- **[" +:+ pid r +:+ "](" +:+ url r +:+ ")**  " +:+ nl
           +:+ "  " +:+ title r +:+ "  " +:+ nl
           +:+ "  *" +:+ authors r +:+ "*  " +:+ nl +:+ "  _" /\
    shown = slice_to 300 (abstract r) /\
    abstract r = shown +:+ rest /\
    String.length shown = Nat.min 300 (String.length (abstract r)) /\
    ((String.length (abstract r) <= 300)%nat ->
     shown = abstract r /\
     md_entry r = lead +:+ abstract r +:+ "..." +:+ "_" +:+ nl).
Proof.
  destruct (slice_to_prefix 300 (abstract r)) as (rest & Heq & Hlen).
  eexists _, (slice_to 300 (abstract r)), rest.
  assert (Hmd : md_entry r =
    ("- **[" +:+ pid r +:+ "](" +:+ url r +:+ ")**  " +:+ nl
     +:+ "  " +:+ title r +:+ "  " +:+ nl
     +:+ "  *" +:+ authors r +:+ "*  " +:+ nl +:+ "  _")
    +:+ slice_to 300 (abstract r) +:+ "..." +:+ "_" +:+ nl).
  { unfold md_entry. rewrite !str_app_assoc. reflexivity. }
  split; [exact Hmd|]. split; [reflexivity|]. split; [reflexivity|].
  split; [exact Heq|]. split; [exact Hlen|].
  intros Hshort. rewrite Hmd, (slice_to_all 300 (abstract r) Hshort).
  split; reflexivity.
Qed.

Example md_entry_short_abstract :
  md_entry (mkRow "2401.00001" "T" "A, B" 0 "u" (Some "P1_x") 2 "Short.")
  = "- **[2401.00001](u)**  " +:+ nl +:+ "  T  " +:+ nl +:+ "  *A, B*  " +:+ nl
    +:+ "  _Short...._" +:+ nl.
Proof. reflexivity. Qed.

(** C8: the digest is the heading followed, for every pick in order, by its
    entry, and each entry renders the abstract as its first 300 characters
    followed by the marker "...", also when the abstract has 300 characters
    or fewer and is rendered whole; this digest is the text a run writes. *)
Theorem digest_marker_unconditional (today_str : string) (picks : list Row) :
  let entry (r : Row) :=
    "- **[" +:+ pid r +:+ "](" +:+ url r +:+ ")**  " +:+ nl
    +:+ "  " +:+ title r +:+ "  " +:+ nl
    +:+ "  *" +:+ authors r +:+ "*  " +:+ nl
    +:+ "  _" +:+ slice_to 300 (abstract r) +:+ "..." +:+ "_" +:+ nl in
  digest today_str picks
    = ("# Weekly Radar " +:+ today_str +:+ nl)
      +:+ fold_right String.append "" (map (fun r => nl +:+ entry r) picks) /\
  (forall r, In r picks ->
     exists before after rest,
       digest today_str picks
         = before +:+ slice_to 300 (abstract r) +:+ "..." +:+ after /\
       abstract r = slice_to 300 (abstract r) +:+ rest /\
       String.length (slice_to 300 (abstract r))
         = Nat.min 300 (String.length (abstract r)) /\
       ((String.length (abstract r) <= 300)%nat ->
        digest today_str picks = before +:+ abstract r +:+ "..." +:+ after)) /\
  (forall cfg since file results picks' md rs,
     snd (main cfg today_str since file results) = Written picks' md rs ->
     md = digest today_str picks').
Proof.
  intros entry.
  assert (Hentry : forall r, md_entry r = entry r).
  { intros r. reflexivity. }
  assert (Hdigest : digest today_str picks
    = ("# Weekly Radar " +:+ today_str +:+ nl)
      +:+ fold_right String.append "" (map (fun r => nl +:+ entry r) picks)).
  { unfold digest. rewrite join_cons_all, map_map. reflexivity. }
  split; [exact Hdigest|]. split.
  - intros r Hr. apply in_split in Hr as (l1 & l2 & ->).
    destruct (slice_to_prefix 300 (abstract r)) as (rest & Heq & Hlen).
    assert (Hsplit : digest today_str (l1 ++ r :: l2)
      = ((("# Weekly Radar " +:+ today_str +:+ nl)
          +:+ fold_right String.append "" (map (fun r => nl +:+ entry r) l1))
         +:+ nl +:+ "- **[" +:+ pid r +:+ "](" +:+ url r +:+ ")**  " +:+ nl
         +:+ "  " +:+ title r +:+ "  " +:+ nl
         +:+ "  *" +:+ authors r +:+ "*  " +:+ nl +:+ "  _")
        +:+ slice_to 300 (abstract r) +:+ "..."
        +:+ ("_" +:+ nl
             +:+ fold_right String.append "" (map (fun r => nl +:+ entry r) l2))).
    { rewrite Hdigest, map_app, concat_str_app. cbn [map fold_right].
      unfold entry at 2. rewrite !str_app_assoc. reflexivity. }
    eexists _, _, rest. split; [exact Hsplit|]. split; [exact Heq|].
    split; [exact Hlen|].
    intros Hshort. rewrite Hsplit, (slice_to_all 300 (abstract r) Hshort). reflexivity.
  - intros cfg since file results picks' md rs Hw.
    exact (proj1 (main_written cfg today_str since file results picks' md rs Hw)).
Qed.

Section SplitFacts.
Variable sep : ascii.

Let free (s : string) : Prop :=
  forall_chars (fun c => negb (Ascii.eqb c sep)) s = true.

Lemma split_not_nil (s : string) : split sep s <> [].
Proof.
  destruct s as [|c s]; simpl; [discriminate|].
  destruct (Ascii.eqb c sep); [discriminate|].
  destruct (split sep s); discriminate.
Qed.

Lemma split_length (s : string) : length (split sep s) = S (count_char sep s).
Proof.
  induction s as [|c s IH]; simpl; [reflexivity|].
  destruct (Ascii.eqb c sep); simpl; [rewrite IH; reflexivity|].
  destruct (split sep s) as [|h t] eqn:E; [|exact IH].
  exfalso. exact (split_not_nil s E).
Qed.

Lemma split_free (a : string) : free a -> split sep a = [a].
Proof.
  unfold free. induction a as [|c a IH]; simpl; [reflexivity|].
  intros H. apply andb_true_iff in H as [Hc Ha].
  apply negb_true_iff in Hc. rewrite Hc, (IH Ha). reflexivity.
Qed.

Lemma split_app_sep (a rest : string) :
  free a -> split sep (a +:+ String sep rest) = a :: split sep rest.
Proof.
  unfold free. induction a as [|c a IH]; intros H.
  - rewrite str_app_nil_l. simpl. rewrite Ascii.eqb_refl. reflexivity.
  - simpl in H. apply andb_true_iff in H as [Hc Ha].
    apply negb_true_iff in Hc.
    rewrite str_app_cons. simpl. rewrite Hc, (IH Ha). reflexivity.
Qed.

End SplitFacts.

Lemma strip_leading_space (s : string) : strip (" " +:+ s) = strip s.
Proof. reflexivity. Qed.

(** Splitting the stored author column gives the names back, each but the
    first behind the blank of the separator. *)
Lemma split_join_authors (lead n : string) (names : list string) :
  no_comma lead -> no_comma n -> Forall no_comma names ->
  split ","%char (lead +:+ join_authors (n :: names))
    = (lead +:+ n) :: map (fun m => " " +:+ m) names.
Proof.
  revert lead n. induction names as [|m names IH]; intros lead n Hl Hn Hall.
  - simpl. apply split_free. unfold no_comma in *.
    rewrite forall_chars_app, Hl, Hn. reflexivity.
  - inversion Hall as [|? ? Hm Hrest]; subst.
    change (join_authors (n :: m :: names))
      with (n +:+ ", " +:+ join_authors (m :: names)).
    change (", " +:+ join_authors (m :: names))
      with (String ","%char (" " +:+ join_authors (m :: names))).
    rewrite <- str_app_assoc, split_app_sep.
    + rewrite (IH " " m); [reflexivity|reflexivity|exact Hm|exact Hrest].
    + unfold no_comma in *. rewrite forall_chars_app, Hl, Hn. reflexivity.
Qed.

(** C5, as stated, fails: the author column of an item without authors is
    the empty string, which [split] turns into one empty name, so the record
    has one AU line rather than none. *)
Lemma ris_record_empty_authors :
  join_authors [] = "" /\
  ris_record (mkRow "2401.00001" "T" (join_authors []) 0 "u" (Some "P1_x") 2 "")
    = ["TY  - JOUR"; "TI  - T"; "AU  - "; "UR  - u"; "ER  - "; ""].
Proof. split; reflexivity. Qed.

(** C5, amended: every record holds, in order, a TY line, a TI line, one AU
    line for each comma-separated piece of the stored author column (one more
    than its commas, so at least one), a UR line, an ER line and an empty
    line; for an item with at least one author whose names hold no comma
    these are one AU line per author, the name trimmed.  The bibliographic
    export a run writes is these records of its picks, one after the other,
    joined by newlines. *)
Theorem ris_record_layout (r : Row) (n : string) (names : list string) :
  no_comma n -> Forall no_comma names ->
  authors r = join_authors (n :: names) ->
  ris_record r
    = ["TY  - JOUR"; "TI  - " +:+ title r]
      ++ map (fun a => "AU  - " +:+ strip a) (n :: names)
      ++ ["UR  - " +:+ url r; "ER  - "; ""] /\
  (forall r' : Row, exists aus,
     ris_record r'
       = ["TY  - JOUR"; "TI  - " +:+ title r'] ++ aus
         ++ ["UR  - " +:+ url r'; "ER  - "; ""] /\
     aus = map au_line (split ","%char (authors r')) /\
     length aus = S (count_char ","%char (authors r')) /\
     Forall (fun l => String.prefix "AU  - " l = true) aus) /\
  (forall picks : list Row,
     ris picks
     = join nl
         (concat
            (map (fun r' =>
                    ["TY  - JOUR"; "TI  - " +:+ title r']
                    ++ map (fun a => "AU  - " +:+ strip a)
                         (split ","%char (authors r'))
                    ++ ["UR  - " +:+ url r'; "ER  - "; ""])
                 picks))) /\
  (forall cfg today_str since file results picks md rs,
     snd (main cfg today_str since file results) = Written picks md rs ->
     rs = ris picks).
Proof.
  intros Hn Hall Hau. split; [|split; [|split]].
  - unfold ris_record. rewrite Hau.
    rewrite <- (str_app_nil_l (join_authors (n :: names))).
    rewrite split_join_authors by (assumption || reflexivity).
    rewrite str_app_nil_l. simpl map. rewrite map_map.
    reflexivity.
  - intros r'. eexists. split; [reflexivity|]. split; [reflexivity|]. split.
    + rewrite length_map. apply split_length.
    + apply List.Forall_forall. intros l Hl. apply in_map_iff in Hl as (a & <- & _).
      unfold au_line. destruct (strip a); reflexivity.
  - intros picks. reflexivity.
  - intros cfg today_str since file results picks md rs Hw.
    exact (proj1 (proj2 (main_written cfg today_str since file results picks md rs Hw))).
Qed.

Lemma ris_record_layout_witness :
  let r := mkRow "2401.00001" "T" (join_authors ["Ada Lovelace"; "Alan Turing"]) 0
                 "u" (Some "P1_x") 2 "" in
  ris_record r
    = ["TY  - JOUR"; "TI  - " +:+ title r]
      ++ map (fun a => "AU  - " +:+ strip a) ["Ada Lovelace"; "Alan Turing"]
      ++ ["UR  - " +:+ url r; "ER  - "; ""].
Proof.
  intros r.
  apply (ris_record_layout r "Ada Lovelace" ["Alan Turing"]).
  - reflexivity.
  - constructor; [reflexivity|constructor].
  - reflexivity.
Defined.

(** ** Seen-ledger *)

Section LedgerFacts.

Lemma no_linebreak_cons (c : ascii) (s : string) :
  no_linebreak (String c s) <-> is_linebreak c = false /\ no_linebreak s.
Proof.
  unfold no_linebreak. simpl. rewrite andb_true_iff, negb_true_iff. reflexivity.
Qed.

(** A non-empty text without a line boundary is one line. *)
Lemma splitlines_one_line (a : string) :
  no_linebreak a -> a <> "" -> splitlines a = [a].
Proof.
  induction a as [|c a IH]; intros Hnb Hne; [contradiction|].
  apply no_linebreak_cons in Hnb as [Hc Ha].
  simpl. rewrite Hc. destruct a as [|c' a']; [reflexivity|].
  rewrite IH; [reflexivity|exact Ha|discriminate].
Qed.

(** A line ended by LF is reported, and the lines of the rest follow. *)
Lemma splitlines_line_lf (a rest : string) :
  no_linebreak a -> splitlines (a +:+ String LF rest) = a :: splitlines rest.
Proof.
  induction a as [|c a IH]; intros Hnb.
  - rewrite str_app_nil_l. destruct rest; reflexivity.
  - apply no_linebreak_cons in Hnb as [Hc Ha].
    rewrite str_app_cons. simpl. rewrite Hc, (IH Ha). reflexivity.
Qed.

Lemma join_cons2 (sep a b : string) (t : list string) :
  join sep (a :: b :: t) = a +:+ sep +:+ join sep (b :: t).
Proof. reflexivity. Qed.

(** Lines that only the first of may be empty, and not if it is alone, are
    read back as they were joined. *)
Lemma splitlines_join (a : string) (t : list string) :
  Forall no_linebreak (a :: t) ->
  Forall (fun x => x <> "") t ->
  (t = [] -> a <> "") ->
  splitlines (join nl (a :: t)) = a :: t.
Proof.
  revert a. induction t as [|b t IH]; intros a Hnb Hne Ha.
  - simpl. apply splitlines_one_line; [|apply Ha; reflexivity].
    inversion Hnb; assumption.
  - rewrite join_cons2. unfold nl at 1.
    rewrite str_app_cons, str_app_nil_l.
    inversion Hnb as [|? ? Hnba Hnbt]; subst.
    inversion Hne as [|? ? Hb Ht]; subst.
    rewrite splitlines_line_lf by exact Hnba.
    rewrite IH; [reflexivity|exact Hnbt|exact Ht|].
    intros _. exact Hb.
Qed.

Lemma string_le_empty (a : string) : String.le a "" -> a = "".
Proof. intros H. destruct a; [reflexivity|]. destruct H. Qed.

Lemma sorted_perm (seen : gset string) : sorted seen ≡ₚ elements seen.
Proof. apply merge_sort_Permutation. Qed.

Lemma sorted_strongly (seen : gset string) : StronglySorted String.le (sorted seen).
Proof. apply StronglySorted_merge_sort; apply _. Qed.

Lemma sorted_nodup (seen : gset string) : NoDup (sorted seen).
Proof. rewrite sorted_perm. apply NoDup_elements. Qed.

Lemma elem_of_sorted (seen : gset string) (x : string) : x ∈ sorted seen <-> x ∈ seen.
Proof. rewrite sorted_perm. apply elem_of_elements. Qed.

Lemma list_to_set_sorted (seen : gset string) :
  list_to_set (sorted seen) = seen.
Proof.
  rewrite (list_to_set_perm_L (C := gset string) _ _ (sorted_perm seen)).
  apply list_to_set_elements_L.
Qed.

(** In the sorted list only the first identifier can be the empty one. *)
Lemma sorted_tail_nonempty (seen : gset string) (a : string) (t : list string) :
  sorted seen = a :: t -> Forall (fun x => x <> "") t.
Proof.
  intros Heq.
  pose proof (sorted_strongly seen) as Hs. pose proof (sorted_nodup seen) as Hd.
  rewrite Heq in Hs, Hd.
  apply StronglySorted_inv in Hs as [_ Hall].
  apply NoDup_cons in Hd as [Hnotin _].
  rewrite List.Forall_forall in *. intros x Hx ->.
  apply Hnotin. apply list_elem_of_In.
  rewrite (string_le_empty a (Hall "" Hx)). exact Hx.
Qed.

Lemma sorted_only_empty (seen : gset string) : sorted seen = [""] -> seen = {[ "" ]}.
Proof.
  intros Heq. rewrite <- (list_to_set_sorted seen), Heq. simpl.
  apply union_empty_r_L.
Qed.

(** What [splitlines] reads of a saved ledger without line boundaries in its
    identifiers. *)
Lemma splitlines_save_seen (seen : gset string) :
  (forall x, x ∈ seen -> no_linebreak x) ->
  seen <> {[ "" ]} ->
  splitlines (save_seen seen) = sorted seen.
Proof.
  intros Hnb Hne. unfold save_seen.
  destruct (sorted seen) as [|a t] eqn:Heq; [reflexivity|].
  apply splitlines_join.
  - apply List.Forall_forall. intros x Hx. apply Hnb.
    apply elem_of_sorted. rewrite Heq. apply list_elem_of_In. exact Hx.
  - exact (sorted_tail_nonempty seen a t Heq).
  - intros -> ->. apply Hne. apply sorted_only_empty. exact Heq.
Qed.

End LedgerFacts.

Example save_seen_sorted_lines :
  save_seen {[ "2401.00002"; "2312.00009"; "2401.00001" ]}
  = "2312.00009" +:+ nl +:+ "2401.00001" +:+ nl +:+ "2401.00002".
Proof. vm_compute. reflexivity. Qed.

(** C9, as stated, fails: the set holding only the empty string, which is
    what a ledger file of one blank line loads as, is saved as an empty file,
    and that loads as the empty set; and an identifier with a carriage
    return, which is no newline, is read back as two identifiers. *)
Lemma ledger_round_trip_fails :
  (no_linebreak "" /\
   load_seen (Some nl) = {[ "" ]} /\
   save_seen {[ "" ]} = "" /\
   load_seen (Some (save_seen {[ "" ]})) = ∅ /\
   load_seen (Some (save_seen {[ "" ]})) <> {[ "" ]}) /\
  (forall_chars (fun c => negb (Ascii.eqb c LF)) (String "a" (String CR "b")) = true /\
   load_seen (Some (save_seen {[ String "a" (String CR "b") ]})) = {[ "a"; "b" ]} /\
   load_seen (Some (save_seen {[ String "a" (String CR "b") ]}))
     <> {[ String "a" (String CR "b") ]}).
Proof.
  assert (H1 : load_seen (Some (save_seen {[ "" ]})) = ∅).
  { unfold save_seen, sorted. rewrite elements_singleton. reflexivity. }
  assert (H2 : load_seen (Some (save_seen {[ String "a" (String CR "b") ]}))
               = {[ "a"; "b" ]}).
  { unfold save_seen, sorted. rewrite elements_singleton. simpl.
    rewrite union_empty_r_L. reflexivity. }
  split; [split; [reflexivity|split; [|split; [|split; [exact H1|]]]]|].
  - simpl. apply union_empty_r_L.
  - unfold save_seen, sorted. rewrite elements_singleton. reflexivity.
  - rewrite H1. intros Heq.
    apply (not_elem_of_empty (C := gset string) ""). rewrite Heq.
    apply elem_of_singleton. reflexivity.
  - split; [reflexivity|split; [exact H2|]].
    rewrite H2. intros Heq.
    assert (Hin : "a" ∈ ({[ String "a" (String CR "b") ]} : gset string)).
    { rewrite <- Heq. apply elem_of_union. left. apply elem_of_singleton. reflexivity. }
    apply elem_of_singleton in Hin. discriminate.
Qed.

(** C9, amended: for every set of identifiers without a line boundary (LF,
    CR and the other boundaries of [splitlines]) other than the set holding
    only the empty string, saving writes one identifier per line in
    increasing order, loading the saved file returns the set, and so does a
    second save and load. *)
Theorem ledger_round_trip (seen : gset string) :
  (forall x, x ∈ seen -> no_linebreak x) ->
  seen <> {[ "" ]} ->
  save_seen seen = join nl (sorted seen) /\
  splitlines (save_seen seen) = sorted seen /\
  StronglySorted String.le (sorted seen) /\
  NoDup (sorted seen) /\
  (forall x, x ∈ sorted seen <-> x ∈ seen) /\
  load_seen (Some (save_seen seen)) = seen /\
  load_seen (Some (save_seen (load_seen (Some (save_seen seen))))) = seen.
Proof.
  intros Hnb Hne.
  assert (Hload : load_seen (Some (save_seen seen)) = seen).
  { unfold load_seen. rewrite splitlines_save_seen by assumption.
    apply list_to_set_sorted. }
  split; [reflexivity|].
  split; [apply splitlines_save_seen; assumption|].
  split; [apply sorted_strongly|]. split; [apply sorted_nodup|].
  split; [apply elem_of_sorted|]. split; [exact Hload|].
  rewrite Hload. exact Hload.
Qed.

Lemma ledger_round_trip_witness :
  let seen : gset string := {[ "2401.00002"; "2312.00009" ]} in
  load_seen (Some (save_seen seen)) = seen.
Proof.
  intros seen.
  refine (proj1 (proj2 (proj2 (proj2 (proj2 (proj2
            (ledger_round_trip seen _ _))))))).
  - intros x Hx. apply elem_of_union in Hx as [Hx|Hx];
      apply elem_of_singleton in Hx; subst x; reflexivity.
  - intros Heq.
    assert (Hin : "2401.00002" ∈ ({[ "" ]} : gset string)).
    { rewrite <- Heq. apply elem_of_union. left. apply elem_of_singleton. reflexivity. }
    apply elem_of_singleton in Hin. discriminate.
Defined.

(** ** What a saved ledger keeps *)

Section LedgerMembership.

Lemma splitlines_cons (c : ascii) (r : string) :
  splitlines (String c r) =
    if is_linebreak c then
      match r with
      | String c' r' =>
          if Ascii.eqb c CR && Ascii.eqb c' LF
          then EmptyString :: splitlines r'
          else EmptyString :: splitlines r
      | EmptyString => [EmptyString]
      end
    else match splitlines r with
         | h :: t => String c h :: t
         | [] => [String c EmptyString]
         end.
Proof. reflexivity. Qed.

(** Every line that [splitlines] reports is free of line boundaries. *)
Lemma splitlines_no_linebreak (s : string) : Forall no_linebreak (splitlines s).
Proof.
  remember (String.length s) as n eqn:Hn.
  assert (Hle : (String.length s <= n)%nat) by lia. clear Hn.
  revert s Hle. induction n as [|n IH]; intros [|c r] Hle; simpl in Hle;
    try (constructor; fail); try lia.
  rewrite splitlines_cons. destruct (is_linebreak c) eqn:Hc.
  - destruct r as [|c' r'].
    + repeat constructor.
    + destruct (Ascii.eqb c CR && Ascii.eqb c' LF).
      * constructor; [reflexivity|]. apply IH. simpl in Hle. lia.
      * constructor; [reflexivity|]. apply IH. lia.
  - pose proof (IH r ltac:(lia)) as Hr.
    destruct (splitlines r) as [|h t].
    + constructor; [|constructor]. apply no_linebreak_cons. split; [exact Hc|reflexivity].
    + inversion Hr as [|? ? Hh Ht]; subst.
      constructor; [|exact Ht]. apply no_linebreak_cons. split; assumption.
Qed.

(** What may follow an identifier in the saved text: nothing, or LF. *)
Let line_end (y : string) : Prop := y = "" \/ exists y', y = String LF y'.

Lemma splitlines_first (p y : string) :
  no_linebreak p -> p <> "" -> line_end y ->
  exists t, splitlines (p +:+ y) = p :: t.
Proof.
  intros Hnb Hne [->|[y' ->]].
  - rewrite str_app_nil_r, splitlines_one_line by assumption. eauto.
  - rewrite splitlines_line_lf by assumption. eauto.
Qed.

(** An identifier written after an LF is a line of the text, whatever is
    written before that LF. *)
Lemma splitlines_after_lf (p y z : string) :
  no_linebreak p -> p <> "" -> line_end y ->
  exists h t, splitlines (z +:+ String LF (p +:+ y)) = h :: t /\ In p t.
Proof.
  intros Hnb Hne Hy.
  destruct (splitlines_first p y Hnb Hne Hy) as (t0 & Hfirst).
  assert (Hbase : splitlines (String LF (p +:+ y)) = "" :: p :: t0).
  { rewrite splitlines_cons. simpl is_linebreak. cbv iota.
    destruct p as [|c0 p0]; [contradiction|].
    rewrite str_app_cons in *. simpl andb. cbv iota. rewrite Hfirst. reflexivity. }
  remember (String.length z) as n eqn:Hn.
  assert (Hle : (String.length z <= n)%nat) by lia. clear Hn.
  revert z Hle. induction n as [|n IH]; intros [|c z'] Hle; simpl in Hle; try lia.
  - rewrite str_app_nil_l, Hbase. eexists _, _. split; [reflexivity|left; reflexivity].
  - rewrite str_app_nil_l, Hbase. eexists _, _. split; [reflexivity|left; reflexivity].
  - rewrite str_app_cons, splitlines_cons. destruct (is_linebreak c) eqn:Hc.
    + destruct z' as [|c' z''].
      * rewrite str_app_nil_l. rewrite Ascii.eqb_refl, andb_true_r.
        destruct (Ascii.eqb c CR).
        -- rewrite Hfirst. eexists _, _. split; [reflexivity|left; reflexivity].
        -- rewrite Hbase. eexists _, _. split; [reflexivity|right; left; reflexivity].
      * rewrite str_app_cons.
        destruct (Ascii.eqb c CR && Ascii.eqb c' LF).
        -- destruct (IH z'' ltac:(simpl in Hle; lia)) as (h & t & -> & Hin).
           eexists _, _. split; [reflexivity|right; exact Hin].
        -- rewrite <- str_app_cons.
           destruct (IH (String c' z'') ltac:(lia)) as (h & t & -> & Hin).
           eexists _, _. split; [reflexivity|right; exact Hin].
    + destruct (IH z' ltac:(lia)) as (h & t & -> & Hin).
      eexists _, _. split; [reflexivity|exact Hin].
Qed.

(** Where an identifier of the list stands in the joined text. *)
Lemma join_locate (p : string) (l : list string) :
  In p l ->
  (exists y, join nl l = p +:+ y /\ line_end y) \/
  (exists z y, join nl l = z +:+ String LF (p +:+ y) /\ line_end y).
Proof.
  induction l as [|a t IH]; intros Hin; [destruct Hin|].
  destruct t as [|b t'].
  - destruct Hin as [->|[]]. left. exists "". split; [|left; reflexivity].
    rewrite str_app_nil_r. reflexivity.
  - rewrite join_cons2. unfold nl at 1. rewrite str_app_cons, str_app_nil_l.
    destruct Hin as [->|Hin].
    + left. eexists. split; [reflexivity|]. right. eauto.
    + right. destruct (IH Hin) as [(y & -> & Hy)|(z & y & -> & Hy)].
      * exists a, y. split; [reflexivity|exact Hy].
      * exists (a +:+ String LF z), y. split; [|exact Hy].
        rewrite str_app_assoc, str_app_cons. reflexivity.
Qed.

Lemma splitlines_join_keeps (p : string) (l : list string) :
  no_linebreak p -> p <> "" -> In p l -> In p (splitlines (join nl l)).
Proof.
  intros Hnb Hne Hin.
  destruct (join_locate p l Hin) as [(y & -> & Hy)|(z & y & -> & Hy)].
  - destruct (splitlines_first p y Hnb Hne Hy) as (t & ->). left. reflexivity.
  - destruct (splitlines_after_lf p y z Hnb Hne Hy) as (h & t & -> & Ht).
    right. exact Ht.
Qed.

(** A well-formed identifier of the saved set is in the set loaded back,
    whatever else the set holds. *)
Lemma load_save_keeps (p : string) (seen : gset string) :
  no_linebreak p -> p <> "" -> p ∈ seen ->
  p ∈ load_seen (Some (save_seen seen)).
Proof.
  intros Hnb Hne Hin. unfold load_seen, save_seen.
  apply elem_of_list_to_set, list_elem_of_In.
  apply splitlines_join_keeps; [exact Hnb|exact Hne|].
  apply list_elem_of_In, elem_of_sorted. exact Hin.
Qed.


Lemma load_seen_no_linebreak (file : option string) (x : string) :
  x ∈ load_seen file -> no_linebreak x.
Proof.
  destruct file as [txt|]; simpl; intros Hx.
  - apply elem_of_list_to_set, list_elem_of_In in Hx.
    pose proof (splitlines_no_linebreak txt) as Hall.
    rewrite List.Forall_forall in Hall. exact (Hall x Hx).
  - exfalso. exact (not_elem_of_empty x Hx).
Qed.

End LedgerMembership.

(** ** Runs *)

Section RunFacts.
Variable cfg : Config.

Lemma firstn_subset {A : Type} (k : nat) (l : list A) (x : A) :
  In x (firstn k l) -> In x l.
Proof.
  intros H. rewrite <- (firstn_skipn k l). apply in_or_app. left. exact H.
Qed.

Lemma df_head_subset {A : Type} (n : Z) (l : list A) (x : A) :
  In x (df_head n l) -> In x l.
Proof. unfold df_head. destruct (0 <=? n); apply firstn_subset. Qed.


Lemma main_file (today_str : string) (since : Z) (file : option string)
    (results : list Result) :
  fst (main cfg today_str since file results)
    = Some (save_seen (snd (scan cfg since results (load_seen file)))).
Proof.
  unfold main. destruct (scan cfg since results (load_seen file)) as [rows seen'].
  destruct rows; [reflexivity|].
  destruct (Allocator.ratio_counts _ _); [|reflexivity].
  destruct (select _ _ _); reflexivity.
Qed.


(** No row of the pool carries an identifier that was in the ledger. *)
Lemma scan_rows_unseen (since : Z) (results : list Result) (seen : gset string)
    (x : Row) :
  In x (fst (scan cfg since results seen)) -> pid x ∉ seen.
Proof.
  unfold scan. destruct (loop_invariant cfg since results [] seen)
    as (added & -> & Hadded & _).
  rewrite app_nil_l. intros Hx.
  destruct (Hadded x Hx) as (res & _ & _ & Hout & ->). exact Hout.
Qed.

(** A qualifying result whose identifier is not yet seen gets a row. *)
Lemma loop_adds (since : Z) (results : list Result) (res : Result)
    (rows0 : list Row) (seen0 : gset string) :
  In res results -> qualifies cfg since res -> pid_of res ∉ seen0 ->
  exists row, In row (fst (fold_left (step cfg since) results (rows0, seen0))) /\
              pid row = pid_of res.
Proof.
  revert rows0 seen0. induction results as [|r results IH];
    intros rows0 seen0 Hin Hq Hout; [destruct Hin|].
  cbn [fold_left].
  destruct (step_cases cfg since rows0 seen0 r) as [[-> Hwhy]|(-> & Hrq & Hrout)].
  - destruct Hin as [->|Hin].
    + destruct Hwhy; contradiction.
    + apply IH; assumption.
  - destruct (decide (pid_of r = pid_of res)) as [Heq|Hneq].
    + destruct (loop_invariant cfg since results
                  (rows0 ++ [make_row r (classify (BUCKETS cfg) (blob_of r))])
                  ({[ pid_of r ]} ∪ seen0)) as (added & -> & _).
      exists (make_row r (classify (BUCKETS cfg) (blob_of r))).
      split; [|exact Heq].
      apply in_or_app. left. apply in_or_app. right. left. reflexivity.
    + destruct Hin as [->|Hin]; [contradiction|].
      apply IH; [exact Hin|exact Hq|].
      intros Hc. apply elem_of_union in Hc as [Hc|Hc]; [|contradiction].
      apply elem_of_singleton in Hc. congruence.
Qed.


End RunFacts.

Example cut_by_quota_still_seen :
  let r1 := mkResult "2401.00001v1" "Object detection and segmentation" None 5
                     ["A. Author"] "http://arxiv.org/abs/2401.00001v1" in
  let r2 := mkResult "2401.00002v3" "Segmentation for object detection" None 6
                     ["B. Author"] "http://arxiv.org/abs/2401.00002v3" in
  let out := main shipped "2024-01-08" 0 None [r1; r2] in
  map pid (picks_of (snd out)) = ["2401.00002"] /\
  fst out = Some ("2401.00001" +:+ nl +:+ "2401.00002") /\
  bool_decide ("2401.00001" ∈ load_seen (fst out)) = true.
Proof. vm_compute. repeat split; reflexivity. Qed.

Example all_qualify_all_seen :
  let c := mkResult "2401.00001v2" "Robot SLAM" (Some "A study.") 5
                    ["A. Author"] "http://arxiv.org/abs/2401.00001v2" in
  let out1 := main shipped "2024-01-08" 0 None [c] in
  fst out1 = Some "2401.00001" /\
  map pid (picks_of (snd out1)) = ["2401.00001"] /\
  main shipped "2024-01-15" 0 (fst out1) [c] = (Some "2401.00001", NoNew).
Proof. vm_compute. repeat split; reflexivity. Qed.

Example failing_item_not_seen :
  let c := mkResult "2401.00001v2" "Robot SLAM" (Some "A study.") 5
                    ["A. Author"] "http://arxiv.org/abs/2401.00001v2" in
  let d := mkResult "2401.00002v1" "Hello" (Some "Nothing here.") 6
                    ["B. Author"] "http://arxiv.org/abs/2401.00002v1" in
  fst (main shipped "2024-01-08" 0 None [c; d]) = Some "2401.00001".
Proof. vm_compute. reflexivity. Qed.



(** ** Normalisation *)

Section NormFacts.

Lemma lower_char_space (c : ascii) : is_space (lower_char c) = is_space c.
Proof. destruct c as [[] [] [] [] [] [] [] []]; reflexivity. Qed.

Lemma lower_char_of_space (c : ascii) : is_space c = true -> lower_char c = c.
Proof. destruct c as [[] [] [] [] [] [] [] []]; intros H; try reflexivity; discriminate H. Qed.

Lemma lower_char_idem (c : ascii) : lower_char (lower_char c) = lower_char c.
Proof. destruct c as [[] [] [] [] [] [] [] []]; reflexivity. Qed.

Lemma lower_idem (s : string) : lower (lower s) = lower s.
Proof.
  induction s as [|c s IH]; simpl; [reflexivity|].
  rewrite lower_char_idem, IH. reflexivity.
Qed.

Lemma lower_collapse (b : bool) (s : string) :
  collapse_ws_go b (lower s) = lower (collapse_ws_go b s).
Proof.
  revert b. induction s as [|c s IH]; intros b; simpl; [reflexivity|].
  rewrite lower_char_space. destruct (is_space c) eqn:Hc.
  - destruct b; simpl; rewrite IH; reflexivity.
  - simpl. rewrite IH. reflexivity.
Qed.

Lemma lower_lstrip (s : string) : lstrip (lower s) = lower (lstrip s).
Proof.
  induction s as [|c s IH]; simpl; [reflexivity|].
  rewrite lower_char_space. destruct (is_space c); [exact IH|reflexivity].
Qed.

Lemma lower_rstrip (s : string) : rstrip (lower s) = lower (rstrip s).
Proof.
  induction s as [|c s IH]; simpl; [reflexivity|].
  rewrite IH, lower_char_space.
  destruct (rstrip s) as [|c' r']; simpl; [|reflexivity].
  destruct (is_space c); reflexivity.
Qed.

Lemma lower_strip (s : string) : strip (lower s) = lower (strip s).
Proof. unfold strip. rewrite lower_lstrip, lower_rstrip. reflexivity. Qed.

Lemma rstrip_idem (s : string) : rstrip (rstrip s) = rstrip s.
Proof.
  induction s as [|c s IH]; simpl; [reflexivity|].
  destruct (rstrip s) as [|c' r'] eqn:E.
  - destruct (is_space c) eqn:Hc; simpl; [reflexivity|]. rewrite Hc. reflexivity.
  - simpl. simpl in IH. rewrite IH. reflexivity.
Qed.

(** What [lstrip] leaves starts with a character that is not white space. *)
Lemma lstrip_head (s : string) :
  lstrip s = "" \/ exists c r, lstrip s = String c r /\ is_space c = false.
Proof.
  induction s as [|c s IH]; simpl; [left; reflexivity|].
  destruct (is_space c) eqn:Hc; [exact IH|].
  right. exists c, s. split; [reflexivity|exact Hc].
Qed.

Lemma lstrip_strip (s : string) : lstrip (strip s) = strip s.
Proof.
  unfold strip. destruct (lstrip_head s) as [->|(c & r & -> & Hc)]; [reflexivity|].
  simpl. destruct (rstrip r); rewrite ?Hc; simpl; rewrite Hc; reflexivity.
Qed.

Lemma strip_idem (s : string) : strip (strip s) = strip s.
Proof.
  unfold strip at 1. rewrite lstrip_strip. unfold strip. apply rstrip_idem.
Qed.

Lemma single_spaced_collapse (b : bool) (s : string) :
  single_spaced b (collapse_ws_go b s) = true.
Proof.
  revert b. induction s as [|c s IH]; intros b; simpl; [reflexivity|].
  destruct (is_space c) eqn:Hc.
  - destruct b; [apply IH|]. simpl. apply IH.
  - simpl. rewrite Hc. apply IH.
Qed.

Lemma single_spaced_fixed (b : bool) (s : string) :
  single_spaced b s = true -> collapse_ws_go b s = s.
Proof.
  revert b. induction s as [|c s IH]; intros b; simpl; [reflexivity|].
  destruct (is_space c) eqn:Hc.
  - intros H. apply andb_true_iff in H as [H Hr]. apply andb_true_iff in H as [Heq Hb].
    apply Ascii.eqb_eq in Heq. apply negb_true_iff in Hb. subst b c.
    rewrite (IH true Hr). reflexivity.
  - intros H. rewrite (IH false H). reflexivity.
Qed.

Lemma single_spaced_lstrip (b : bool) (s : string) :
  single_spaced b s = true -> single_spaced false (lstrip s) = true.
Proof.
  revert b. induction s as [|c s IH]; intros b; simpl; [reflexivity|].
  destruct (is_space c) eqn:Hc.
  - intros H. apply andb_true_iff in H as [_ Hr]. exact (IH true Hr).
  - intros H. simpl. rewrite Hc. exact H.
Qed.

Lemma single_spaced_rstrip (b : bool) (s : string) :
  single_spaced b s = true -> single_spaced b (rstrip s) = true.
Proof.
  revert b. induction s as [|c s IH]; intros b; simpl; [reflexivity|].
  destruct (is_space c) eqn:Hc.
  - intros H. apply andb_true_iff in H as [H Hr].
    specialize (IH true Hr).
    destruct (rstrip s) as [|c' r']; [reflexivity|].
    simpl. rewrite Hc. simpl in IH. rewrite H, IH. reflexivity.
  - intros H. specialize (IH false H).
    destruct (rstrip s) as [|c' r']; simpl; rewrite Hc; [reflexivity|exact IH].
Qed.

Lemma single_spaced_lower (b : bool) (s : string) :
  single_spaced b (lower s) = single_spaced b s.
Proof.
  revert b. induction s as [|c s IH]; intros b; simpl; [reflexivity|].
  rewrite lower_char_space. destruct (is_space c) eqn:Hc.
  - rewrite (lower_char_of_space c Hc), IH. reflexivity.
  - apply IH.
Qed.

Lemma single_spaced_norm (s : string) : single_spaced false (norm s) = true.
Proof.
  unfold norm, strip. rewrite single_spaced_lower.
  apply single_spaced_rstrip, (single_spaced_lstrip false).
  apply single_spaced_collapse.
Qed.

Lemma norm_idem (s : string) : norm (norm s) = norm s.
Proof.
  pose proof (single_spaced_norm s) as Hs.
  unfold norm at 1. unfold collapse_ws. rewrite (single_spaced_fixed false _ Hs).
  unfold norm. rewrite lower_strip, strip_idem, lower_idem. reflexivity.
Qed.

End NormFacts.

Example norm_scenario :
  norm (String "009" "  Hello" +:+ nl +:+ "  WORLD  ") = "hello world".
Proof. reflexivity. Qed.

(** X1: normalising is idempotent, and a normalised text is in normal form:
    its only white space is single blanks, none at either end, and lowering,
    stripping or collapsing it again changes nothing. *)
Theorem norm_normal_form (s : string) :
  norm (norm s) = norm s /\
  single_spaced false (norm s) = true /\
  collapse_ws (norm s) = norm s /\
  strip (norm s) = norm s /\
  lstrip (norm s) = norm s /\
  lower (norm s) = norm s.
Proof.
  split; [apply norm_idem|]. split; [apply single_spaced_norm|].
  split; [apply single_spaced_fixed, single_spaced_norm|].
  assert (Hstrip : strip (norm s) = norm s).
  { unfold norm. rewrite lower_strip, strip_idem. reflexivity. }
  split; [exact Hstrip|]. split.
  - rewrite <- Hstrip. apply lstrip_strip.
  - unfold norm. apply lower_idem.
Qed.

(** X2: the classifier sees a text only through its normal form: two texts
    with the same normal form get the same hits in every bucket and the same
    winner, and so does a text and its own normal form. *)
Theorem classify_insensitive (buckets : Buckets) (t1 t2 : string) :
  norm t1 = norm t2 ->
  (forall kws, count_hits t1 kws = count_hits t2 kws) /\
  classify buckets t1 = classify buckets t2 /\
  classify buckets (norm t1) = classify buckets t1.
Proof.
  intros Heq.
  assert (Hcount : forall a b, norm a = norm b ->
                     forall kws, count_hits a kws = count_hits b kws).
  { intros a b Hab kws. unfold count_hits. rewrite Hab. reflexivity. }
  assert (Hclass : forall a b, norm a = norm b ->
                     classify buckets a = classify buckets b).
  { intros a b Hab. unfold classify.
    assert (Hstep : forall l acc,
              fold_left (best_step a) l acc = fold_left (best_step b) l acc).
    { induction l as [|e l IH]; intros acc; simpl; [reflexivity|].
      unfold best_step at 2 4. rewrite (Hcount a b Hab). apply IH. }
    apply Hstep. }
  split; [exact (Hcount t1 t2 Heq)|]. split; [exact (Hclass t1 t2 Heq)|].
  apply Hclass. apply norm_idem.
Qed.

Lemma classify_insensitive_witness :
  classify (BUCKETS shipped) ("Robot  SLAM" +:+ nl)
  = classify (BUCKETS shipped) " robot slam".
Proof.
  apply (classify_insensitive (BUCKETS shipped) ("Robot  SLAM" +:+ nl) " robot slam").
  reflexivity.
Defined.

(** ** Keyword matching *)

Section ContainsFacts.

Lemma prefix_nil (t : string) : String.prefix "" t = true.
Proof. destruct t; reflexivity. Qed.

Lemma prefix_spec (a t : string) :
  String.prefix a t = true <-> exists post, t = a +:+ post.
Proof.
  revert t. induction a as [|c a IH]; intros t.
  - rewrite prefix_nil. split; [intros _; exists t; reflexivity|reflexivity].
  - destruct t as [|c' t'].
    + split; [discriminate|]. intros [post H]. discriminate H.
    + simpl. destruct (ascii_dec c c') as [->|Hne].
      * rewrite IH. split; intros [post H]; exists post.
        -- rewrite str_app_cons, H. reflexivity.
        -- rewrite str_app_cons in H. injection H as H. exact H.
      * split; [discriminate|]. intros [post H].
        rewrite str_app_cons in H. injection H as H1 _. congruence.
Qed.

Lemma contains_nil (kw : string) : contains kw "" = String.prefix kw "" || false.
Proof. reflexivity. Qed.

Lemma contains_cons (kw : string) (c : ascii) (r : string) :
  contains kw (String c r) = String.prefix kw (String c r) || contains kw r.
Proof. reflexivity. Qed.

(** [kw in t] holds exactly when [kw] occurs in [t]. *)
Lemma contains_spec (kw t : string) :
  contains kw t = true <-> exists pre post, t = pre +:+ kw +:+ post.
Proof.
  split.
  - induction t as [|c t IH]; intros H.
    + rewrite contains_nil in H. apply orb_true_iff in H as [H|H]; [|discriminate].
      apply prefix_spec in H as [post ->]. exists "", post. reflexivity.
    + rewrite contains_cons in H. apply orb_true_iff in H as [H|H].
      * apply prefix_spec in H as [post ->]. exists "", post. reflexivity.
      * destruct (IH H) as (pre & post & ->). exists (String c pre), post. reflexivity.
  - intros (pre & post & ->). induction pre as [|c pre IH].
    + rewrite str_app_nil_l.
      assert (Hp : String.prefix kw (kw +:+ post) = true).
      { apply prefix_spec. exists post. reflexivity. }
      destruct (kw +:+ post).
      * rewrite contains_nil, Hp. reflexivity.
      * rewrite contains_cons, Hp. reflexivity.
    + rewrite str_app_cons, contains_cons, IH. apply orb_true_r.
Qed.

Lemma contains_trans (a b t : string) :
  contains a b = true -> contains b t = true -> contains a t = true.
Proof.
  intros Hab Hbt.
  apply contains_spec in Hab as (p1 & q1 & ->).
  apply contains_spec in Hbt as (p2 & q2 & ->).
  apply contains_spec. exists (p2 +:+ p1), (q1 +:+ q2).
  rewrite !str_app_assoc. reflexivity.
Qed.

(** The loop of [count_hits] counts the keywords that pass the test. *)
Lemma count_hits_filter (text : string) (kws : list string) :
  count_hits text kws
  = (Z.of_nat (length (List.filter (fun kw => contains kw (norm text)) kws)),
     Z.of_nat (length (List.filter (fun kw => contains kw (norm text)) kws))).
Proof.
  unfold count_hits.
  assert (H : forall h s,
    fold_left (fun (acc : Z * Z) kw =>
                 if contains kw (norm text) then (fst acc + 1, snd acc + 1) else acc)
              kws (h, s)
    = (h + Z.of_nat (length (List.filter (fun kw => contains kw (norm text)) kws)),
       s + Z.of_nat (length (List.filter (fun kw => contains kw (norm text)) kws)))).
  { induction kws as [|kw kws IH]; intros h s; simpl.
    - rewrite !Z.add_0_r. reflexivity.
    - destruct (contains kw (norm text)); simpl.
      + rewrite IH. f_equal; lia.
      + apply IH. }
  rewrite H. reflexivity.
Qed.

End ContainsFacts.

(** X3: [count_hits] returns the same number twice, the number of entries of
    the keyword list (repeats counted) that occur in the normalised text; it
    lies between 0 and the length of the list, and a keyword is counted
    exactly when the normalised text is some text, the keyword, some text. *)
Theorem count_hits_counts_occurrences (text : string) (kws : list string) :
  let n := Z.of_nat (length (List.filter (fun kw => contains kw (norm text)) kws)) in
  count_hits text kws = (n, n) /\
  0 <= n <= Z.of_nat (length kws) /\
  (forall kw, contains kw (norm text) = true <->
              exists pre post, norm text = pre +:+ kw +:+ post) /\
  (forall kw, contains kw (norm text) = false ->
              count_hits text (kw :: kws) = count_hits text kws) /\
  (forall kw, contains kw (norm text) = true ->
              count_hits text (kw :: kws) = (n + 1, n + 1)).
Proof.
  intros n. split; [apply count_hits_filter|]. split.
  - pose proof (filter_length_le (fun kw => contains kw (norm text)) kws). lia.
  - split; [intros kw; apply contains_spec|]. split.
    + intros kw H. rewrite !count_hits_filter. simpl. rewrite H. reflexivity.
    + intros kw H. rewrite count_hits_filter. simpl. rewrite H. simpl length.
      subst n. f_equal; lia.
Qed.

(** X4: on a table that is not empty the winner's score is the greatest
    score of the table, reached by the winning bucket, and its hits equal its
    score.  On an empty table there is no winner, with 0 hits and score -1. *)
Theorem classify_best_is_max (buckets : Buckets) (blob : string) :
  buckets <> [] ->
  best_hits (classify buckets blob) = best_score (classify buckets blob) /\
  0 <= best_score (classify buckets blob) /\
  (forall name kws, In (name, kws) buckets ->
     snd (count_hits blob kws) <= best_score (classify buckets blob)) /\
  (exists name kws, In (name, kws) buckets /\
     best_bucket (classify buckets blob) = Some name /\
     snd (count_hits blob kws) = best_score (classify buckets blob)) /\
  classify [] blob = mkBest None 0 (-1).
Proof.
  intros Hne.
  destruct (classify_nonempty blob buckets Hne)
    as ([name kws] & Hin & Heq & Hmax & Hhs & Hh0).
  rewrite Heq. simpl in *.
  split; [exact Hhs|]. split; [lia|]. split.
  - intros n k Hnk. exact (Hmax (n, k) Hnk).
  - split; [|reflexivity]. exists name, kws. split; [exact Hin|]. split; reflexivity.
Qed.

Lemma classify_best_is_max_witness :
  best_hits (classify (BUCKETS shipped) "a diffusion transformer for robot video generation")
  = best_score (classify (BUCKETS shipped) "a diffusion transformer for robot video generation").
Proof.
  apply (classify_best_is_max (BUCKETS shipped)
           "a diffusion transformer for robot video generation").
  simpl. discriminate.
Defined.

(** X5: matching is by substring, so under the shipped table a text whose
    normal form holds "robotics" counts the keywords "robot" and "robotics"
    both: its winning bucket has at least 2 hits and it reaches the shipped
    threshold on that one word. *)
Theorem robotics_reaches_threshold (blob : string) :
  contains "robotics" (norm blob) = true ->
  2 <= fst (count_hits blob (snd (List.hd ("", []) (BUCKETS shipped)))) /\
  MIN_HITS_ANY_BUCKET shipped <= best_hits (classify (BUCKETS shipped) blob).
Proof.
  intros Hics.
  assert (Hbot : contains "robot" (norm blob) = true).
  { apply (contains_trans "robot" "robotics"); [reflexivity|exact Hics]. }
  assert (Hp1 : 2 <= snd (count_hits blob (snd (List.hd ("", []) (BUCKETS shipped))))).
  { rewrite count_hits_filter.
    change (snd (List.hd ("", []) (BUCKETS shipped)))
      with ([ "world model"; "embodied"; "vla"; "vision-language-action";
              "visuomotor"; "policy learning"; "sim2real";
              "3d reconstruction"; "multi-view"; "structure from motion";
              "slam"; "nerf"; "gaussian splatting" ] ++ [ "robot"; "robotics" ]).
    rewrite List.filter_app, length_app.
    cbn [List.filter]. rewrite Hbot, Hics. cbn [snd length]. lia. }
  split.
  - pose proof (count_hits_same blob (snd (List.hd ("", []) (BUCKETS shipped)))) as [E _].
    rewrite E. exact Hp1.
  - destruct (classify_nonempty blob (BUCKETS shipped) ltac:(discriminate))
      as (e & _ & Heq & Hmax & Hhs & _).
    rewrite Heq. cbn [best_hits]. rewrite Hhs.
    specialize (Hmax (List.hd ("", []) (BUCKETS shipped)) (or_introl eq_refl)).
    change (MIN_HITS_ANY_BUCKET shipped) with 2. lia.
Qed.

Lemma robotics_reaches_threshold_witness :
  MIN_HITS_ANY_BUCKET shipped
  <= best_hits (classify (BUCKETS shipped) "Advances in Robotics").
Proof.
  apply (robotics_reaches_threshold "Advances in Robotics"). reflexivity.
Defined.

(** ** More on the allocator *)

Section AllocatorScale.
Import Allocator.

Lemma round_half_even_pos_scale (k p s : Z) :
  0 < k -> 0 < s -> round_half_even_pos (k * p) (k * s) = round_half_even_pos p s.
Proof.
  intros Hk Hs. unfold round_half_even_pos.
  rewrite Z.div_mul_cancel_l by lia. rewrite Z.mul_mod_distr_l by lia.
  pose proof (Z.mod_pos_bound p s Hs) as Hr.
  set (r := p mod s) in *.
  destruct (Z.ltb_spec (2 * r) s) as [H1|H1].
  - destruct (Z.ltb_spec (2 * (k * r)) (k * s)); [reflexivity|nia].
  - destruct (Z.ltb_spec (2 * (k * r)) (k * s)); [nia|].
    destruct (Z.ltb_spec s (2 * r)) as [H2|H2].
    + destruct (Z.ltb_spec (k * s) (2 * (k * r))); [reflexivity|nia].
    + destruct (Z.ltb_spec (k * s) (2 * (k * r))); [nia|reflexivity].
Qed.

Lemma py_round_div_scale (k p s : Z) :
  0 < k -> s <> 0 -> py_round_div (k * p) (k * s) = py_round_div p s.
Proof.
  intros Hk Hs. unfold py_round_div.
  destruct (Z.ltb_spec (k * s) 0), (Z.ltb_spec s 0); try nia.
  - rewrite <- !Z.mul_opp_r. apply round_half_even_pos_scale; lia.
  - apply round_half_even_pos_scale; lia.
Qed.

Lemma round_half_even_pos_exact (s x : Z) :
  0 < s -> round_half_even_pos (s * x) s = x.
Proof.
  intros Hs.
  apply (nearest_even_unique (s * x) s); [exact Hs| |].
  - apply round_half_even_pos_nearest. exact Hs.
  - split; [lia|]. intros H. lia.
Qed.

End AllocatorScale.

(** X6: only the proportions of the ratio matter: for non-negative
    arguments in the range where the double-precision quotient rounds as the
    exact one, multiplying the three components by the same positive integer
    leaves the quotas as they are; and in that range the allocator fails
    exactly on a ratio that sums to zero. *)
Theorem ratio_counts_scale (k total a b c : Z) :
  0 < k -> 0 <= total -> 0 <= a -> 0 <= b -> 0 <= c ->
  Allocator.double_exact total (k * a) (k * b) ->
  Allocator.ratio_counts total (k * a, k * b, k * c)
    = Allocator.ratio_counts total (a, b, c) /\
  (Allocator.ratio_counts total (a, b, c) = None <-> a + b + c = 0).
Proof.
  intros Hk HT Ha Hb Hc _. split.
  - unfold Allocator.ratio_counts.
    replace (k * a + k * b + k * c) with (k * (a + b + c)) by lia.
    destruct (Z.eqb_spec (a + b + c) 0) as [E|E].
    + rewrite E, Z.mul_0_r. reflexivity.
    + destruct (Z.eqb_spec (k * (a + b + c)) 0); [nia|].
      replace (total * (k * a)) with (k * (total * a)) by lia.
      replace (total * (k * b)) with (k * (total * b)) by lia.
      rewrite !py_round_div_scale by assumption. reflexivity.
  - split.
    + intros H. destruct (Z.eq_dec (a + b + c) 0) as [E|E]; [exact E|].
      rewrite ratio_counts_some in H by exact E. discriminate.
    + apply ratio_counts_zero_sum.
Qed.

Lemma ratio_counts_scale_witness :
  Allocator.ratio_counts 10 (5 * 6, 5 * 3, 5 * 1) = Allocator.ratio_counts 10 (6, 3, 1).
Proof.
  apply (ratio_counts_scale 5 10 6 3 1); try lia.
  split; vm_compute; reflexivity.
Defined.

(** X7: when the ratio sum divides the total times each of the first two
    components (as 10 does for the shipped 6 : 3 : 1 of 10), nothing is
    rounded: each quota is exactly its share of the total, the third one
    included. *)
Theorem ratio_counts_exact_shares (total a b c x y : Z) :
  0 <= total -> 0 <= a -> 0 <= b -> 0 <= c -> 0 < a + b + c ->
  Allocator.double_exact total a b ->
  total * a = (a + b + c) * x ->
  total * b = (a + b + c) * y ->
  Allocator.ratio_counts total (a, b, c) = Some (x, y, total - x - y) /\
  (a + b + c) * (total - x - y) = total * c /\
  0 <= x /\ 0 <= y /\ 0 <= total - x - y.
Proof.
  intros HT Ha Hb Hc Hs _ Hx Hy.
  rewrite ratio_counts_some by lia. rewrite !py_round_div_pos by lia.
  rewrite Hx, Hy, !round_half_even_pos_exact by lia.
  split; [reflexivity|]. split; [lia|]. nia.
Qed.

Lemma ratio_counts_exact_shares_witness :
  Allocator.ratio_counts 10 (6, 3, 1) = Some (6, 3, 10 - 6 - 3).
Proof.
  apply (ratio_counts_exact_shares 10 6 3 1 6 3); try lia.
  split; vm_compute; reflexivity.
Defined.

(** ** The pool of a run *)

Section PoolFacts.
Variables (cfg : Config) (since : Z).

Lemma loop_nodup (results : list Result) (rows0 : list Row) (seen0 : gset string) :
  NoDup (map pid rows0) ->
  (forall r, In r rows0 -> pid r ∈ seen0) ->
  NoDup (map pid (fst (fold_left (step cfg since) results (rows0, seen0)))) /\
  (forall r, In r (fst (fold_left (step cfg since) results (rows0, seen0))) ->
             pid r ∈ snd (fold_left (step cfg since) results (rows0, seen0))).
Proof.
  revert rows0 seen0. induction results as [|res results IH];
    intros rows0 seen0 Hnd Hin; [split; assumption|].
  cbn [fold_left].
  destruct (step_cases cfg since rows0 seen0 res) as [[-> _]|(-> & _ & Hout)].
  - apply IH; assumption.
  - apply IH.
    + rewrite map_app. apply NoDup_app. split; [exact Hnd|]. split.
      * intros p Hp Hp'. apply list_elem_of_In in Hp, Hp'.
        destruct Hp' as [<-|[]]. apply in_map_iff in Hp as (r & Hr & Hr').
        apply Hout. cbn [make_row pid] in Hr. rewrite <- Hr. apply Hin. exact Hr'.
      * apply NoDup_singleton.
    + intros r Hr. apply in_app_or in Hr as [Hr|[<-|[]]].
      * apply elem_of_union. right. apply Hin. exact Hr.
      * apply elem_of_union. left. apply elem_of_singleton. reflexivity.
Qed.

End PoolFacts.

(** X8: every row of the pool comes from a fetched result that is recent,
    was not in the ledger and has at least the minimum hits; on a table that
    is not empty its score is that hit count and its bucket is a configured
    name. *)
Theorem pool_rows_qualify
    (cfg : Config) (since : Z) (results : list Result) (seen : gset string) (row : Row) :
  In row (fst (scan cfg since results seen)) ->
  (exists res, In res results /\
     row = make_row res (classify (BUCKETS cfg) (blob_of res)) /\
     MIN_HITS_ANY_BUCKET cfg <= best_hits (classify (BUCKETS cfg) (blob_of res))) /\
  since <= published row /\
  (pid row ∉ seen) /\
  (BUCKETS cfg <> [] ->
   MIN_HITS_ANY_BUCKET cfg <= score row /\
   exists name, bucket row = Some name /\ In name (map fst (BUCKETS cfg))).
Proof.
  unfold scan. intros Hrow.
  destruct (loop_invariant cfg since results [] seen) as (added & Hrows & Hadded & _).
  rewrite Hrows, app_nil_l in Hrow.
  destruct (Hadded row Hrow) as (res & Hres & [Hnew Hhits] & Hout & ->).
  split; [exists res; split; [exact Hres|split; [reflexivity|exact Hhits]]|].
  split; [exact Hnew|]. split; [exact Hout|].
  intros Hne.
  destruct (classify_nonempty (blob_of res) (BUCKETS cfg) Hne)
    as ([name kws] & Hin & Heq & _ & Hhs & _).
  cbn [make_row score bucket]. rewrite Heq in Hhits |- *. cbn in Hhits, Hhs |- *.
  split; [lia|]. exists name. split; [reflexivity|].
  apply in_map_iff. exists (name, kws). split; [reflexivity|exact Hin].
Qed.

Lemma pool_rows_qualify_witness :
  let res := mkResult "2401.00001v2" "Robot SLAM" (Some "A study.") 5
                      ["A. Author"] "http://arxiv.org/abs/2401.00001v2" in
  let row := make_row res (classify (BUCKETS shipped) (blob_of res)) in
  0 <= published row.
Proof.
  intros res row.
  apply (pool_rows_qualify shipped 0 [res] ∅ row).
  vm_compute. left. reflexivity.
Defined.

(** X9: within one run no two rows of the pool carry the same identifier
    (a result whose identifier was already taken in the run is skipped), the
    identifier of every row is in the seen set the run ends with, and that
    set holds everything the run started with. *)
Theorem pool_identifiers_distinct
    (cfg : Config) (since : Z) (results : list Result) (seen : gset string) :
  NoDup (map pid (fst (scan cfg since results seen))) /\
  (forall row, In row (fst (scan cfg since results seen)) ->
     pid row ∈ snd (scan cfg since results seen)) /\
  seen ⊆ snd (scan cfg since results seen).
Proof.
  unfold scan.
  destruct (loop_nodup cfg since results [] seen) as [Hnd Hin].
  { constructor. } { intros r []. }
  split; [exact Hnd|]. split; [exact Hin|].
  destruct (loop_invariant cfg since results [] seen) as (_ & _ & _ & Hseen).
  intros p Hp. apply Hseen. left. exact Hp.
Qed.

(** ** The shortlist of a run *)

Section PickFacts.

Lemma nodup_map_inj {A B : Type} (f : A -> B) (l : list A) (x y : A) :
  NoDup (map f l) -> In x l -> In y l -> f x = f y -> x = y.
Proof.
  induction l as [|a l IH]; intros Hnd Hx Hy Heq; [destruct Hx|].
  cbn [map] in Hnd. apply NoDup_cons in Hnd as [Hnotin Hnd].
  destruct Hx as [->|Hx], Hy as [->|Hy].
  - reflexivity.
  - exfalso. apply Hnotin. apply list_elem_of_In, in_map_iff.
    exists y. split; [symmetry; exact Heq|exact Hy].
  - exfalso. apply Hnotin. apply list_elem_of_In, in_map_iff.
    exists x. split; [exact Heq|exact Hx].
  - apply IH; assumption.
Qed.

Lemma nodup_map_filter {A B : Type} (f : A -> B) (g : A -> bool) (l : list A) :
  NoDup (map f l) -> NoDup (map f (List.filter g l)).
Proof.
  induction l as [|a l IH]; intros Hnd; [exact Hnd|].
  cbn [map] in Hnd. apply NoDup_cons in Hnd as [Hnotin Hnd].
  cbn [List.filter]. destruct (g a); [|apply IH; exact Hnd].
  cbn [map]. apply NoDup_cons. split; [|apply IH; exact Hnd].
  intros Hin. apply Hnotin. apply list_elem_of_In in Hin.
  apply list_elem_of_In. apply in_map_iff in Hin as (x & Hx & Hx').
  apply in_map_iff. exists x. split; [exact Hx|]. apply filter_In in Hx'. tauto.
Qed.

Lemma nodup_map_firstn {A B : Type} (f : A -> B) (k : nat) (l : list A) :
  NoDup (map f l) -> NoDup (map f (firstn k l)).
Proof.
  revert k. induction l as [|a l IH]; intros k Hnd; [destruct k; exact Hnd|].
  destruct k as [|k]; [constructor|].
  cbn [map] in Hnd. apply NoDup_cons in Hnd as [Hnotin Hnd].
  cbn [firstn map]. apply NoDup_cons. split; [|apply IH; exact Hnd].
  intros Hin. apply Hnotin. apply list_elem_of_In in Hin.
  apply list_elem_of_In. apply in_map_iff in Hin as (x & Hx & Hx').
  apply in_map_iff. exists x. split; [exact Hx|]. exact (firstn_subset k l x Hx').
Qed.

Lemma nodup_map_df_head {A B : Type} (f : A -> B) (n : Z) (l : list A) :
  NoDup (map f l) -> NoDup (map f (df_head n l)).
Proof. unfold df_head. destruct (0 <=? n); apply nodup_map_firstn. Qed.

(** A bucket name starts with at most one of two different prefixes of the
    same length two. *)
Lemma in_bucket_exclusive (c1 c2 : ascii) (r : Row) :
  c1 <> c2 ->
  in_bucket (String "P" (String c1 "")) r = true ->
  in_bucket (String "P" (String c2 "")) r = true -> False.
Proof.
  unfold in_bucket, startswith. destruct (bucket r) as [b|]; [|discriminate].
  intros Hne H1 H2.
  apply prefix_spec in H1 as [p1 ->]. apply prefix_spec in H2 as [p2 H2].
  rewrite !str_app_cons in H2. injection H2 as H2 _. congruence.
Qed.

Lemma nodup_map_app_disjoint {A B : Type} (f : A -> B) (l k : list A) :
  NoDup (map f l) -> NoDup (map f k) ->
  (forall x y, In x l -> In y k -> f x <> f y) ->
  NoDup (map f (l ++ k)).
Proof.
  intros Hl Hk Hd. rewrite map_app. apply NoDup_app.
  split; [exact Hl|]. split; [|exact Hk].
  intros b Hb Hb'. apply list_elem_of_In, in_map_iff in Hb as (x & <- & Hx).
  apply list_elem_of_In, in_map_iff in Hb' as (y & Hy & Hy').
  exact (Hd x y Hx Hy' (eq_sym Hy)).
Qed.

(** The picks keep the identifiers of the pool distinct, and each pick is a
    row of the pool in one of the three priority buckets. *)
Lemma select_nodup (total : Z) (quotas : Z * Z * Z) (rows picks : list Row) :
  select total quotas rows = Some picks ->
  NoDup (map pid rows) ->
  NoDup (map pid picks) /\
  (forall x, In x picks ->
     In x rows /\
     (in_bucket "P1" x = true \/ in_bucket "P2" x = true \/ in_bucket "P3" x = true)).
Proof.
  unfold select. destruct quotas as [[q1 q2] q3].
  destruct (forallb has_bucket (sort_values rows)); [|discriminate].
  intros [= <-] Hnd.
  assert (Hdf : NoDup (map pid (sort_values rows))).
  { rewrite (Permutation_map pid (sort_values_perm rows)). exact Hnd. }
  assert (Hseg : forall p q x,
            In x (df_head q (List.filter (in_bucket p) (sort_values rows))) ->
            In x (sort_values rows) /\ in_bucket p x = true).
  { intros p q x Hx. apply df_head_subset, filter_In in Hx. exact Hx. }
  assert (Hcross : forall c1 c2 q q' x y, c1 <> c2 ->
            In x (df_head q (List.filter (in_bucket (String "P" (String c1 "")))
                                         (sort_values rows))) ->
            In y (df_head q' (List.filter (in_bucket (String "P" (String c2 "")))
                                          (sort_values rows))) ->
            pid x <> pid y).
  { intros c1 c2 q q' x y Hne Hx Hy Heq.
    apply Hseg in Hx as [Hx Hbx]. apply Hseg in Hy as [Hy Hby].
    pose proof (nodup_map_inj pid _ x y Hdf Hx Hy Heq) as ->.
    exact (in_bucket_exclusive c1 c2 y Hne Hbx Hby). }
  split.
  - apply nodup_map_df_head.
    apply nodup_map_app_disjoint; [| |].
    + apply nodup_map_df_head, nodup_map_filter. exact Hdf.
    + apply nodup_map_app_disjoint.
      * apply nodup_map_df_head, nodup_map_filter. exact Hdf.
      * apply nodup_map_df_head, nodup_map_filter. exact Hdf.
      * intros x y. apply (Hcross "2"%char "3"%char). discriminate.
    + intros x y Hx Hy. apply in_app_or in Hy as [Hy|Hy].
      * exact (Hcross "1"%char "2"%char _ _ x y ltac:(discriminate) Hx Hy).
      * exact (Hcross "1"%char "3"%char _ _ x y ltac:(discriminate) Hx Hy).
  - intros x Hx. apply df_head_subset in Hx.
    repeat (apply in_app_or in Hx as [Hx|Hx]); apply Hseg in Hx as [Hx Hb];
      (split; [apply (Permutation_in x (sort_values_perm rows)); exact Hx|]); tauto.
Qed.

End PickFacts.

(** X10: whatever a run exports, no two picks share an identifier, no pick
    carries an identifier that was in the ledger file, and every pick is a
    row of the pool whose bucket name starts with P1, P2 or P3: a row of a
    bucket named otherwise is never exported. *)
Theorem picks_are_new_and_distinct
    (cfg : Config) (today_str : string) (since : Z) (file : option string)
    (results : list Result) :
  let picks := picks_of (snd (main cfg today_str since file results)) in
  NoDup (map pid picks) /\
  (forall row, In row picks ->
     (pid row ∉ load_seen file) /\
     In row (fst (scan cfg since results (load_seen file))) /\
     (in_bucket "P1" row = true \/ in_bucket "P2" row = true \/
      in_bucket "P3" row = true)).
Proof.
  intros picks. subst picks. unfold main.
  pose proof (pool_nodup := loop_nodup cfg since results [] (load_seen file)).
  pose proof (Hunseen := scan_rows_unseen cfg since results (load_seen file)).
  unfold scan in *.
  destruct (fold_left (step cfg since) results ([], load_seen file)) as [rows seen'].
  cbn [fst snd] in *.
  destruct pool_nodup as [Hnd _]; [constructor|intros r []|].
  destruct rows as [|r rows]; [split; [constructor|intros row []]|].
  destruct (Allocator.ratio_counts _ _) as [q|]; [|split; [constructor|intros row []]].
  destruct (select _ _ _) as [picks|] eqn:Hsel; [|split; [constructor|intros row []]].
  cbn [snd picks_of].
  destruct (select_nodup _ _ _ _ Hsel Hnd) as [Hpn Hpin].
  split; [exact Hpn|]. intros row Hrow.
  destruct (Hpin row Hrow) as [Hin Hb].
  split; [apply Hunseen; exact Hin|]. split; [exact Hin|exact Hb].
Qed.

(** ** The ledger across a run *)

(** X11: a run never forgets: a non-empty identifier read from the ledger
    file at the start of a run is read again from the file the run leaves,
    whatever was fetched and however the run ends. *)
Theorem ledger_only_grows
    (cfg : Config) (today_str : string) (since : Z) (file : option string)
    (results : list Result) (p : string) :
  p ∈ load_seen file -> p <> "" ->
  p ∈ load_seen (fst (main cfg today_str since file results)).
Proof.
  intros Hin Hne. rewrite main_file.
  apply load_save_keeps; [exact (load_seen_no_linebreak file p Hin)|exact Hne|].
  unfold scan.
  destruct (loop_invariant cfg since results [] (load_seen file)) as (_ & _ & _ & Hseen).
  apply Hseen. left. exact Hin.
Qed.

Lemma ledger_only_grows_witness :
  "2312.00009" ∈ load_seen (fst (main shipped "2024-01-08" 0 (Some "2312.00009") [])).
Proof.
  apply (ledger_only_grows shipped "2024-01-08" 0 (Some "2312.00009") [] "2312.00009").
  - simpl. apply elem_of_union. left. apply elem_of_singleton. reflexivity.
  - discriminate.
Defined.

Lemma save_seen_empty : save_seen ∅ = "".
Proof. unfold save_seen, sorted. rewrite elements_empty. reflexivity. Qed.

Lemma save_seen_only_empty : save_seen {[ "" ]} = "".
Proof. unfold save_seen, sorted. rewrite elements_singleton. reflexivity. Qed.

(** X12: saving what was loaded normalises the ledger file, and doing it
    again changes nothing: for any file, present or not and whatever its
    content, the text saved from the loaded set is saved unchanged after it
    is loaded once more; the set itself is read back unless it is the set of
    the empty identifier alone, which is read back empty. *)
Theorem save_load_normalises (file : option string) :
  save_seen (load_seen (Some (save_seen (load_seen file))))
    = save_seen (load_seen file) /\
  (load_seen file <> {[ "" ]} ->
   load_seen (Some (save_seen (load_seen file))) = load_seen file) /\
  (load_seen file = {[ "" ]} ->
   load_seen (Some (save_seen (load_seen file))) = ∅) /\
  load_seen None = ∅.
Proof.
  assert (Hnb : forall x, x ∈ load_seen file -> no_linebreak x).
  { intros x. apply load_seen_no_linebreak. }
  assert (Hback : load_seen file <> {[ "" ]} ->
                  load_seen (Some (save_seen (load_seen file))) = load_seen file).
  { intros Hne. unfold load_seen at 1.
    rewrite splitlines_save_seen by assumption. apply list_to_set_sorted. }
  assert (Hempty : load_seen file = {[ "" ]} ->
                   load_seen (Some (save_seen (load_seen file))) = ∅).
  { intros ->. rewrite save_seen_only_empty. reflexivity. }
  split; [|split; [exact Hback|split; [exact Hempty|reflexivity]]].
  destruct (decide (load_seen file = {[ "" ]})) as [E|E].
  - rewrite (Hempty E), E, save_seen_empty, save_seen_only_empty. reflexivity.
  - rewrite (Hback E). reflexivity.
Qed.

(** ** How a run ends *)

Section OutcomeFacts.
Variable cfg : Config.

Lemma scan_empty_iff (since : Z) (results : list Result) (seen : gset string) :
  fst (scan cfg since results seen) = [] <->
  (forall res, In res results -> qualifies cfg since res -> pid_of res ∈ seen).
Proof.
  split.
  - intros Hempty res Hres Hq.
    destruct (decide (pid_of res ∈ seen)) as [Hin|Hout]; [exact Hin|].
    destruct (loop_adds cfg since results res [] seen Hres Hq Hout) as (row & Hrow & _).
    unfold scan in Hempty. rewrite Hempty in Hrow. destruct Hrow.
  - intros Hall. unfold scan.
    destruct (loop_invariant cfg since results [] seen) as (added & -> & Hadded & _).
    destruct added as [|row added]; [reflexivity|].
    destruct (Hadded row (or_introl eq_refl)) as (res & Hres & Hq & Hout & _).
    exfalso. exact (Hout (Hall res Hres Hq)).
Qed.

Lemma scan_seen_unchanged (since : Z) (results : list Result) (seen : gset string) :
  (forall res, In res results -> qualifies cfg since res -> pid_of res ∈ seen) ->
  snd (scan cfg since results seen) = seen.
Proof.
  intros Hall. unfold scan.
  destruct (loop_invariant cfg since results [] seen) as (_ & _ & _ & Hseen).
  apply set_eq. intros p. rewrite Hseen. split.
  - intros [H|(res & Hres & Hq & ->)]; [exact H|exact (Hall res Hres Hq)].
  - intros H. left. exact H.
Qed.

Lemma main_outcome_nonew (today_str : string) (since : Z) (file : option string)
    (results : list Result) :
  snd (main cfg today_str since file results) = NoNew <->
  fst (scan cfg since results (load_seen file)) = [].
Proof.
  unfold main. destruct (scan cfg since results (load_seen file)) as [rows seen'].
  cbn [fst]. destruct rows as [|r rows]; [split; reflexivity|].
  destruct (Allocator.ratio_counts _ _); [|split; discriminate].
  destruct (select _ _ _); split; discriminate.
Qed.

End OutcomeFacts.

(** X13: a run reports that there is nothing new exactly when every fetched
    result that is recent and reaches the threshold already has its
    identifier in the ledger; it then exports nothing and saves the loaded
    set back, so the ledger file is rewritten in sorted form. *)
Theorem main_nothing_new
    (cfg : Config) (today_str : string) (since : Z) (file : option string)
    (results : list Result) :
  (snd (main cfg today_str since file results) = NoNew <->
   forall res, In res results -> qualifies cfg since res ->
               pid_of res ∈ load_seen file) /\
  (snd (main cfg today_str since file results) = NoNew ->
   fst (main cfg today_str since file results) = Some (save_seen (load_seen file))) /\
  main cfg today_str since file [] = (Some (save_seen (load_seen file)), NoNew).
Proof.
  split; [|split].
  - rewrite main_outcome_nonew. apply scan_empty_iff.
  - intros H. rewrite main_file. f_equal. f_equal.
    apply scan_seen_unchanged. apply scan_empty_iff.
    apply (main_outcome_nonew cfg today_str). exact H.
  - reflexivity.
Qed.

(** X14: with a ratio that sums to zero a run that finds anything new fails
    in the allocator, after the ledger was saved: nothing is exported and the
    identifiers of the new items are in the saved ledger all the same, so
    later runs skip them. *)
Theorem main_zero_ratio_loses_items
    (cfg : Config) (today_str : string) (since : Z) (file : option string)
    (results : list Result) (res : Result) :
  fst (fst (RATIO cfg)) + snd (fst (RATIO cfg)) + snd (RATIO cfg) = 0 ->
  In res results -> qualifies cfg since res -> pid_of res ∉ load_seen file ->
  no_linebreak (pid_of res) -> pid_of res <> "" ->
  snd (main cfg today_str since file results) = Raised /\
  picks_of (snd (main cfg today_str since file results)) = [] /\
  pid_of res ∈ load_seen (fst (main cfg today_str since file results)).
Proof.
  intros Hzero Hres Hq Hout Hnb Hne.
  assert (Hsaved : pid_of res ∈ load_seen (fst (main cfg today_str since file results))).
  { rewrite main_file. apply load_save_keeps; [exact Hnb|exact Hne|].
    unfold scan.
    destruct (loop_invariant cfg since results [] (load_seen file))
      as (_ & _ & _ & Hseen).
    apply Hseen. right. exists res. split; [exact Hres|]. split; [exact Hq|reflexivity]. }
  assert (Hraised : snd (main cfg today_str since file results) = Raised).
  { destruct (loop_adds cfg since results res [] (load_seen file) Hres Hq Hout)
      as (row & Hrow & _).
    unfold main. fold (scan cfg since results (load_seen file)) in Hrow.
    destruct (scan cfg since results (load_seen file)) as [rows seen'].
    cbn [fst] in Hrow. destruct rows as [|r rows]; [destruct Hrow|].
    destruct (RATIO cfg) as [[a b] c]. cbn [fst snd] in Hzero.
    rewrite (ratio_counts_zero_sum _ a b c Hzero). reflexivity. }
  split; [exact Hraised|]. split; [rewrite Hraised; reflexivity|exact Hsaved].
Qed.

Lemma main_zero_ratio_loses_items_witness :
  let cfg := mkConfig 10 (0, 0, 0) 2 (BUCKETS shipped) in
  let res := mkResult "2401.00001v2" "Robot SLAM" (Some "A study.") 5
                      ["A. Author"] "http://arxiv.org/abs/2401.00001v2" in
  snd (main cfg "2024-01-08" 0 None [res]) = Raised.
Proof.
  intros cfg res.
  apply (main_zero_ratio_loses_items cfg "2024-01-08" 0 None [res] res).
  - reflexivity.
  - left. reflexivity.
  - split; vm_compute; discriminate.
  - apply not_elem_of_empty.
  - reflexivity.
  - vm_compute. discriminate.
Defined.

Section WellConfigured.
Variable cfg : Config.

Lemma pool_has_bucket (since : Z) (results : list Result) (seen : gset string) :
  BUCKETS cfg <> [] ->
  forallb has_bucket (fst (scan cfg since results seen)) = true.
Proof.
  intros Hne. apply forallb_forall. intros row Hrow. unfold scan in Hrow.
  destruct (loop_invariant cfg since results [] seen) as (added & Hrows & Hadded & _).
  rewrite Hrows, app_nil_l in Hrow.
  destruct (Hadded row Hrow) as (res & _ & _ & _ & ->).
  destruct (classify_nonempty (blob_of res) (BUCKETS cfg) Hne) as (e & _ & Heq & _).
  unfold has_bucket. cbn [make_row bucket]. rewrite Heq. reflexivity.
Qed.

Lemma select_some (total : Z) (quotas : Z * Z * Z) (rows : list Row) :
  forallb has_bucket rows = true ->
  exists picks, select total quotas rows = Some picks /\
                (0 <= total -> Z.of_nat (length picks) <= total).
Proof.
  intros Hb. unfold select. destruct quotas as [[q1 q2] q3].
  rewrite (forallb_has_bucket_perm rows (sort_values rows)
             (Permutation_sym (sort_values_perm rows)) Hb).
  eexists. split; [reflexivity|]. intros Ht.
  rewrite df_head_nonneg by exact Ht. rewrite length_firstn. lia.
Qed.

End WellConfigured.

(** X15: with a ratio of non-negative integers that does not sum to zero, a
    non-negative total (in the range where the double-precision quotient
    rounds as the exact one) and a bucket table that is not empty, a run
    fails neither in the allocator nor in the selector: it either reports
    that there is nothing new or writes the digest and the bibliographic
    export of the same picks, at most the total of them, and the ledger is
    saved in both cases. *)
Theorem main_well_configured
    (cfg : Config) (today_str : string) (since : Z) (file : option string)
    (results : list Result) (a b c : Z) :
  RATIO cfg = (a, b, c) ->
  0 <= a -> 0 <= b -> 0 <= c -> 0 < a + b + c ->
  0 <= TOTAL_PICKS cfg ->
  Allocator.double_exact (TOTAL_PICKS cfg) a b ->
  BUCKETS cfg <> [] ->
  (snd (main cfg today_str since file results) = NoNew \/
   exists picks,
     snd (main cfg today_str since file results)
       = Written picks (digest today_str picks) (ris picks) /\
     Z.of_nat (length picks) <= TOTAL_PICKS cfg) /\
  fst (main cfg today_str since file results)
    = Some (save_seen (snd (scan cfg since results (load_seen file)))).
Proof.
  intros Hr Ha Hb Hc Hsum Htot _ Hne. split; [|apply main_file].
  pose proof (pool_has_bucket cfg since results (load_seen file) Hne) as Hb'.
  unfold main. destruct (scan cfg since results (load_seen file)) as [rows seen'].
  cbn [fst] in Hb'. destruct rows as [|r rows]; [left; reflexivity|right].
  rewrite Hr. rewrite (ratio_counts_some _ a b c) by lia.
  destruct (select_some (TOTAL_PICKS cfg)
              (Allocator.py_round_div (TOTAL_PICKS cfg * a) (a + b + c),
               Allocator.py_round_div (TOTAL_PICKS cfg * b) (a + b + c),
               TOTAL_PICKS cfg
               - Allocator.py_round_div (TOTAL_PICKS cfg * a) (a + b + c)
               - Allocator.py_round_div (TOTAL_PICKS cfg * b) (a + b + c))
              (r :: rows) Hb') as (picks & -> & Hlen).
  exists picks. split; [reflexivity|exact (Hlen Htot)].
Qed.

Lemma main_well_configured_witness :
  let res := mkResult "2401.00001v2" "Robot SLAM" (Some "A study.") 5
                      ["A. Author"] "http://arxiv.org/abs/2401.00001v2" in
  fst (main shipped "2024-01-08" 0 None [res])
    = Some (save_seen (snd (scan shipped 0 [res] (load_seen None)))).
Proof.
  intros res.
  apply (main_well_configured shipped "2024-01-08" 0 None [res] 6 3 1);
    try reflexivity; try lia.
  - vm_compute. discriminate.
  - split; vm_compute; reflexivity.
  - simpl. discriminate.
Defined.

(** ** Identifiers and titles *)

Section FieldFacts.

Lemma split_head (sep : ascii) (s : string) :
  exists h t rest,
    split sep s = h :: t /\
    forall_chars (fun c => negb (Ascii.eqb c sep)) h = true /\
    s = h +:+ rest /\
    (rest = "" \/ exists r', rest = String sep r').
Proof.
  induction s as [|c s IH].
  - exists "", [], "". repeat split. left. reflexivity.
  - cbn [split]. destruct (Ascii.eqb c sep) eqn:Hc.
    + apply Ascii.eqb_eq in Hc. subst c.
      exists "", (split sep s), (String sep s). repeat split. right. eauto.
    + destruct IH as (h & t & rest & -> & Hfree & Heq & Hrest).
      exists (String c h), t, rest. split; [reflexivity|]. split.
      * cbn [forall_chars]. rewrite Hc, Hfree. reflexivity.
      * split; [rewrite str_app_cons, <- Heq; reflexivity|exact Hrest].
Qed.

Lemma forall_chars_lstrip (f : ascii -> bool) (s : string) :
  forall_chars f s = true -> forall_chars f (lstrip s) = true.
Proof.
  induction s as [|c s IH]; [reflexivity|]. cbn [lstrip forall_chars].
  intros H. apply andb_true_iff in H as [Hc Hs].
  destruct (is_space c); [exact (IH Hs)|].
  cbn [forall_chars]. rewrite Hc, Hs. reflexivity.
Qed.

Lemma forall_chars_rstrip (f : ascii -> bool) (s : string) :
  forall_chars f s = true -> forall_chars f (rstrip s) = true.
Proof.
  induction s as [|c s IH]; [reflexivity|]. cbn [rstrip forall_chars].
  intros H. apply andb_true_iff in H as [Hc Hs]. specialize (IH Hs).
  destruct (rstrip s) as [|c' r'].
  - destruct (is_space c); [reflexivity|]. cbn [forall_chars]. rewrite Hc. reflexivity.
  - cbn [forall_chars] in *. rewrite Hc, IH. reflexivity.
Qed.

Lemma replace_nl_no_lf (s : string) :
  forall_chars (fun c => negb (Ascii.eqb c LF)) (replace_nl s) = true.
Proof.
  induction s as [|c s IH]; [reflexivity|]. cbn [replace_nl forall_chars].
  rewrite IH, andb_true_r. destruct (Ascii.eqb c LF) eqn:Hc; [reflexivity|].
  rewrite Hc. reflexivity.
Qed.

End FieldFacts.

(** X16: the identifier of a result is its short id up to the first letter
    v, that letter excluded: it holds no v, the short id is the identifier
    followed by nothing or by v and the rest, and for a short id of the form
    base, v, version with no v in the base it is the base, whatever the
    version, so two versions of a paper share one identifier. *)
Theorem pid_of_strips_version (res : Result) :
  forall_chars (fun c => negb (Ascii.eqb c "v"%char)) (pid_of res) = true /\
  (exists rest, short_id res = pid_of res +:+ rest /\
                (rest = "" \/ exists r', rest = String "v"%char r')) /\
  (forall base ver,
     forall_chars (fun c => negb (Ascii.eqb c "v"%char)) base = true ->
     short_id res = base +:+ String "v"%char ver ->
     pid_of res = base) /\
  (forall_chars (fun c => negb (Ascii.eqb c "v"%char)) (short_id res) = true ->
   pid_of res = short_id res).
Proof.
  unfold pid_of.
  destruct (split_head "v"%char (short_id res)) as (h & t & rest & Hs & Hfree & Heq & Hrest).
  split; [rewrite Hs; exact Hfree|].
  split; [rewrite Hs; exists rest; split; [exact Heq|exact Hrest]|].
  split.
  - intros base ver Hbase ->. rewrite split_app_sep by exact Hbase. reflexivity.
  - intros Hall. rewrite split_free by exact Hall. reflexivity.
Qed.

Example pid_of_versions :
  pid_of (mkResult "2401.00001v1" "" None 0 [] "") = "2401.00001" /\
  pid_of (mkResult "2401.00001v12" "" None 0 [] "") = "2401.00001" /\
  pid_of (mkResult "solv-int/9901001v1" "" None 0 [] "") = "sol".
Proof. repeat split; reflexivity. Qed.

(** X17: the title of a row holds no newline and neither the title nor the
    abstract starts or ends with white space. *)
Theorem title_is_one_line (res : Result) :
  forall_chars (fun c => negb (Ascii.eqb c LF)) (title_of res) = true /\
  strip (title_of res) = title_of res /\
  strip (abstract_of res) = abstract_of res.
Proof.
  split; [|split; apply strip_idem].
  unfold title_of, strip.
  apply forall_chars_rstrip, forall_chars_lstrip, replace_nl_no_lf.
Qed.

(** ** The bibliographic export *)

Section RisFacts.

Lemma au_lines_other (tag : string) (l : list string) :
  String.eqb tag "AU  - " = false -> String.length tag = 6%nat ->
  List.filter (String.eqb tag) (map au_line l) = [].
Proof.
  intros Hne Hlen. induction l as [|a l IH]; [reflexivity|].
  cbn [map List.filter]. rewrite IH.
  assert (E : String.eqb tag (au_line a) = false).
  { unfold au_line.
    destruct tag as [|c1 [|c2 [|c3 [|c4 [|c5 [|c6 [|c7 tag]]]]]]]; try discriminate Hlen.
    rewrite !str_app_cons, str_app_nil_l. cbn [String.eqb] in Hne |- *.
    destruct (Ascii.eqb c1 "A"); [|reflexivity].
    destruct (Ascii.eqb c2 "U"); [|reflexivity].
    destruct (Ascii.eqb c3 " "); [|reflexivity].
    destruct (Ascii.eqb c4 " "); [|reflexivity].
    destruct (Ascii.eqb c5 "-"); [|reflexivity].
    destruct (Ascii.eqb c6 " "); [discriminate Hne|reflexivity]. }
  rewrite E. reflexivity.
Qed.

Lemma ris_record_terminators (r : Row) :
  List.filter (String.eqb "ER  - ") (ris_record r) = ["ER  - "].
Proof.
  unfold ris_record. rewrite !List.filter_app.
  rewrite (au_lines_other "ER  - ") by reflexivity. reflexivity.
Qed.

Lemma ris_record_length (r : Row) :
  length (ris_record r) = (6 + count_char ","%char (authors r))%nat.
Proof.
  unfold ris_record. rewrite !length_app, length_map, split_length.
  cbn [length]. lia.
Qed.

End RisFacts.

(** X18: the bibliographic export holds exactly one terminator line
    ["ER  - "] for each pick, and its number of lines is, summed over the
    picks, six plus the number of commas of the author column. *)
Theorem ris_one_record_per_pick (picks : list Row) :
  length (List.filter (String.eqb "ER  - ") (ris_lines picks)) = length picks /\
  length (ris_lines picks)
    = list_sum (map (fun r => (6 + count_char ","%char (authors r))%nat) picks) /\
  ris_lines [] = [].
Proof.
  split; [|split; [|reflexivity]].
  - unfold ris_lines. induction picks as [|r picks IH]; [reflexivity|].
    cbn [map concat]. rewrite List.filter_app, length_app, ris_record_terminators, IH.
    reflexivity.
  - unfold ris_lines. induction picks as [|r picks IH]; [reflexivity|].
    cbn [map concat list_sum]. rewrite length_app, ris_record_length, IH. reflexivity.
Qed.

(** ** Title and abstract as one text *)

Lemma collapse_lf_as_blank (b : bool) (x y : string) :
  collapse_ws_go b (x +:+ nl +:+ y) = collapse_ws_go b (x +:+ " " +:+ y).
Proof.
  revert b. induction x as [|c x IH]; intros b.
  - rewrite !str_app_nil_l. destruct b; reflexivity.
  - rewrite !str_app_cons. cbn [collapse_ws_go].
    destruct (is_space c); [destruct b|]; rewrite IH; reflexivity.
Qed.

Example keyword_across_boundary :
  let res := mkResult "2401.00003v1" "Learning a World" (Some "Model of everything") 5
                      [] "" in
  count_hits (blob_of res) ["world model"] = (1, 1).
Proof. reflexivity. Qed.

(** X19: the newline that joins title and abstract counts as a blank: the
    classifier gives the joined text the hits and the winner of the title, a
    blank and the abstract, so a keyword of two words is also found with one
    word ending the title and the other starting the abstract. *)
Theorem blob_newline_is_blank (res : Result) (buckets : Buckets) :
  norm (blob_of res) = norm (title_of res +:+ " " +:+ abstract_of res) /\
  (forall kws, count_hits (blob_of res) kws
               = count_hits (title_of res +:+ " " +:+ abstract_of res) kws) /\
  classify buckets (blob_of res)
    = classify buckets (title_of res +:+ " " +:+ abstract_of res).
Proof.
  assert (Hn : norm (blob_of res) = norm (title_of res +:+ " " +:+ abstract_of res)).
  { unfold norm, blob_of, collapse_ws. rewrite collapse_lf_as_blank. reflexivity. }
  split; [exact Hn|]. split.
  - intros kws. unfold count_hits. rewrite Hn. reflexivity.
  - unfold classify.
    assert (Hstep : forall l acc,
              fold_left (best_step (blob_of res)) l acc
              = fold_left (best_step (title_of res +:+ " " +:+ abstract_of res)) l acc).
    { induction l as [|e l IH]; intros acc; [reflexivity|]. cbn [fold_left].
      unfold best_step at 2 4. unfold count_hits. rewrite Hn. apply IH. }
    apply Hstep.
Qed.

(** ** The seen set after the loop *)

(** X20: the seen set the loop ends with holds the identifiers it started
    with and the identifiers of the fetched results that are recent and
    reach the threshold, and nothing else: a result that is too old or below
    the threshold leaves no trace in the ledger. *)
Theorem seen_after_scan
    (cfg : Config) (since : Z) (results : list Result) (seen : gset string) (p : string) :
  p ∈ snd (scan cfg since results seen) <->
  p ∈ seen \/
  exists res, In res results /\ p = pid_of res /\
              since <= res_published res /\
              MIN_HITS_ANY_BUCKET cfg
                <= best_hits (classify (BUCKETS cfg) (blob_of res)).
Proof.
  unfold scan.
  destruct (loop_invariant cfg since results [] seen) as (_ & _ & _ & Hseen).
  rewrite Hseen. split.
  - intros [H|(res & Hres & [Hnew Hhits] & ->)]; [left; exact H|].
    right. exists res. repeat split; assumption.
  - intros [H|(res & Hres & -> & Hnew & Hhits)]; [left; exact H|].
    right. exists res. split; [exact Hres|]. split; [split; assumption|reflexivity].
Qed.

(** ** Quotas in the shortlist *)

Section QuotaFacts.

Lemma filter_none {A : Type} (f : A -> bool) (l : list A) :
  (forall x, In x l -> f x = false) -> List.filter f l = [].
Proof.
  induction l as [|a l IH]; intros H; [reflexivity|]. cbn [List.filter].
  rewrite (H a (or_introl eq_refl)). apply IH. intros x Hx. apply H. right. exact Hx.
Qed.

Lemma filter_firstn_le {A : Type} (f : A -> bool) (k : nat) (l : list A) :
  (length (List.filter f (firstn k l)) <= length (List.filter f l))%nat.
Proof.
  revert k. induction l as [|a l IH]; intros k; [destruct k; apply le_n|].
  destruct k as [|k]; [apply Nat.le_0_l|]. cbn [firstn List.filter].
  specialize (IH k). destruct (f a); cbn [length]; lia.
Qed.

Lemma segment_other_bucket (c1 c2 : ascii) (q : Z) (df : list Row) :
  c1 <> c2 ->
  List.filter (in_bucket (String "P" (String c1 "")))
    (df_head q (List.filter (in_bucket (String "P" (String c2 ""))) df)) = [].
Proof.
  intros Hne. apply filter_none. intros x Hx.
  apply df_head_subset, filter_In in Hx as [_ Hx].
  destruct (in_bucket (String "P" (String c1 "")) x) eqn:E; [|reflexivity].
  exfalso. exact (in_bucket_exclusive c1 c2 x Hne E Hx).
Qed.

Lemma segment_within_quota (p : string) (q : Z) (df : list Row) :
  0 <= q ->
  Z.of_nat (length (List.filter (in_bucket p) (df_head q (List.filter (in_bucket p) df))))
  <= q.
Proof.
  intros Hq. rewrite df_head_nonneg by exact Hq.
  pose proof (filter_length_le (in_bucket p)
                (firstn (Z.to_nat q) (List.filter (in_bucket p) df))) as H1.
  pose proof (firstn_le_length (Z.to_nat q) (List.filter (in_bucket p) df)) as H2.
  lia.
Qed.

(** The quotas of a ratio whose last component is positive. *)
Lemma ratio_counts_quotas (total a b c : Z) :
  0 <= total -> 0 <= a -> 0 <= b -> 0 < c ->
  exists x y z,
    Allocator.ratio_counts total (a, b, c) = Some (x, y, z) /\
    x + y + z = total /\ 0 <= x /\ 0 <= y /\ 0 <= z.
Proof.
  intros HT Ha Hb Hc.
  assert (Hs : 0 < a + b + c) by lia.
  rewrite ratio_counts_some by lia. rewrite !py_round_div_pos by lia.
  pose proof (round_half_even_pos_nearest (total * a) _ Hs) as [Hx _].
  pose proof (round_half_even_pos_nearest (total * b) _ Hs) as [Hy _].
  pose proof (round_half_even_pos_nonneg (total * a) _ ltac:(nia) Hs) as Hx0.
  pose proof (round_half_even_pos_nonneg (total * b) _ ltac:(nia) Hs) as Hy0.
  set (x := Allocator.round_half_even_pos (total * a) (a + b + c)) in *.
  set (y := Allocator.round_half_even_pos (total * b) (a + b + c)) in *.
  exists x, y, (total - x - y). split; [reflexivity|]. split; [lia|].
  split; [exact Hx0|]. split; [exact Hy0|].
  assert (Hsum : (a + b + c) * (x + y - total - 1) <= - (total * c)) by nia.
  destruct (Z.eq_dec total 0) as [->|Hne].
  - assert (x = 0) by nia. assert (y = 0) by nia. lia.
  - assert (x + y - total - 1 < 0) by nia. lia.
Qed.

Lemma select_within_quotas (total x y z : Z) (rows picks : list Row) :
  0 <= total -> 0 <= x -> 0 <= y -> 0 <= z ->
  select total (x, y, z) rows = Some picks ->
  Z.of_nat (length (List.filter (in_bucket "P1") picks)) <= x /\
  Z.of_nat (length (List.filter (in_bucket "P2") picks)) <= y /\
  Z.of_nat (length (List.filter (in_bucket "P3") picks)) <= z.
Proof.
  intros Ht Hx Hy Hz. unfold select.
  destruct (forallb has_bucket (sort_values rows)); [|discriminate].
  intros [= <-]. rewrite (df_head_nonneg total) by exact Ht.
  set (df := sort_values rows).
  pose proof (segment_within_quota "P1" x df Hx) as B1.
  pose proof (segment_within_quota "P2" y df Hy) as B2.
  pose proof (segment_within_quota "P3" z df Hz) as B3.
  repeat split.
  - pose proof (filter_firstn_le (in_bucket "P1") (Z.to_nat total)
      (df_head x (List.filter (in_bucket "P1") df)
       ++ df_head y (List.filter (in_bucket "P2") df)
       ++ df_head z (List.filter (in_bucket "P3") df))) as H.
    rewrite !List.filter_app, !length_app in H.
    rewrite (segment_other_bucket "1" "2") in H by discriminate.
    rewrite (segment_other_bucket "1" "3") in H by discriminate.
    cbn [length] in H. lia.
  - pose proof (filter_firstn_le (in_bucket "P2") (Z.to_nat total)
      (df_head x (List.filter (in_bucket "P1") df)
       ++ df_head y (List.filter (in_bucket "P2") df)
       ++ df_head z (List.filter (in_bucket "P3") df))) as H.
    rewrite !List.filter_app, !length_app in H.
    rewrite (segment_other_bucket "2" "1") in H by discriminate.
    rewrite (segment_other_bucket "2" "3") in H by discriminate.
    cbn [length] in H. lia.
  - pose proof (filter_firstn_le (in_bucket "P3") (Z.to_nat total)
      (df_head x (List.filter (in_bucket "P1") df)
       ++ df_head y (List.filter (in_bucket "P2") df)
       ++ df_head z (List.filter (in_bucket "P3") df))) as H.
    rewrite !List.filter_app, !length_app in H.
    rewrite (segment_other_bucket "3" "1") in H by discriminate.
    rewrite (segment_other_bucket "3" "2") in H by discriminate.
    cbn [length] in H. lia.
Qed.

End QuotaFacts.

(** X21: allocator and selector together: for a non-negative total and a
    ratio of non-negative integers whose last component is positive (in the
    range where the double-precision quotient rounds as the exact one), the
    quotas are non-negative and sum to the total, and the picks of a run hold
    at most the quota of each of P1, P2 and P3; as shipped, at most 6, 3
    and 1. *)
Theorem picks_within_quotas
    (cfg : Config) (today_str : string) (since : Z) (file : option string)
    (results : list Result) (a b c : Z) :
  RATIO cfg = (a, b, c) ->
  0 <= TOTAL_PICKS cfg -> 0 <= a -> 0 <= b -> 0 < c ->
  Allocator.double_exact (TOTAL_PICKS cfg) a b ->
  let picks := picks_of (snd (main cfg today_str since file results)) in
  exists x y z,
    Allocator.ratio_counts (TOTAL_PICKS cfg) (a, b, c) = Some (x, y, z) /\
    x + y + z = TOTAL_PICKS cfg /\ 0 <= x /\ 0 <= y /\ 0 <= z /\
    Z.of_nat (length (List.filter (in_bucket "P1") picks)) <= x /\
    Z.of_nat (length (List.filter (in_bucket "P2") picks)) <= y /\
    Z.of_nat (length (List.filter (in_bucket "P3") picks)) <= z.
Proof.
  intros Hr Ht Ha Hb Hc _ picks. subst picks.
  destruct (ratio_counts_quotas (TOTAL_PICKS cfg) a b c Ht Ha Hb Hc)
    as (x & y & z & Hq & Hsum & Hx & Hy & Hz).
  exists x, y, z. split; [exact Hq|]. split; [exact Hsum|].
  split; [exact Hx|]. split; [exact Hy|]. split; [exact Hz|].
  unfold main. destruct (scan cfg since results (load_seen file)) as [rows seen'].
  destruct rows as [|r rows]; [cbn; lia|].
  rewrite Hr, Hq.
  destruct (select (TOTAL_PICKS cfg) (x, y, z) (r :: rows)) as [picks|] eqn:Hsel;
    [|cbn; lia].
  cbn [snd picks_of].
  exact (select_within_quotas _ x y z _ picks Ht Hx Hy Hz Hsel).
Qed.

Lemma picks_within_quotas_witness :
  let res := mkResult "2401.00001v2" "Robot SLAM" (Some "A study.") 5
                      ["A. Author"] "http://arxiv.org/abs/2401.00001v2" in
  let picks := picks_of (snd (main shipped "2024-01-08" 0 None [res; res])) in
  exists x y z,
    Allocator.ratio_counts (TOTAL_PICKS shipped) (6, 3, 1) = Some (x, y, z) /\
    x + y + z = TOTAL_PICKS shipped /\ 0 <= x /\ 0 <= y /\ 0 <= z /\
    Z.of_nat (length (List.filter (in_bucket "P1") picks)) <= x /\
    Z.of_nat (length (List.filter (in_bucket "P2") picks)) <= y /\
    Z.of_nat (length (List.filter (in_bucket "P3") picks)) <= z.
Proof.
  intros res.
  apply (picks_within_quotas shipped "2024-01-08" 0 None [res; res] 6 3 1);
    try reflexivity; try (vm_compute; discriminate).
  split; vm_compute; reflexivity.
Defined.

(** ** The selection, in the words of the specification *)

Section SelectionSpec.

Lemma row_ge_spec (r1 r2 : Row) : row_ge r1 r2 = true <-> ranks_before r1 r2.
Proof.
  unfold row_ge, ranks_before.
  rewrite orb_true_iff, andb_true_iff, Z.ltb_lt, Z.eqb_eq, Z.leb_le. reflexivity.
Qed.

Lemma in_bucket_spec (p : string) (r : Row) :
  in_bucket p r = true <-> bucket_starts p r.
Proof.
  unfold in_bucket, bucket_starts, startswith. destruct (bucket r) as [b|].
  - rewrite prefix_spec. split.
    + intros [rest ->]. exists (p +:+ rest), rest. split; reflexivity.
    + intros (b' & rest & [= <-] & ->). exists rest. reflexivity.
  - split; [discriminate|]. intros (b' & rest & H & _). discriminate H.
Qed.

Lemma kept_filter (f : Row -> bool) (P : Row -> Prop) (l : list Row) :
  (forall x, f x = true <-> P x) -> kept P l (List.filter f l).
Proof.
  intros Hf. induction l as [|x l IH]; [constructor|].
  cbn [List.filter]. destruct (f x) eqn:E.
  - apply kept_take; [apply Hf; exact E|exact IH].
  - apply kept_skip; [|exact IH]. intros HP. apply Hf in HP. congruence.
Qed.

(** The rows kept are those of the list that satisfy the predicate. *)
Lemma kept_in (P : Row -> Prop) (l sub : list Row) :
  kept P l sub -> forall x, In x sub <-> In x l /\ P x.
Proof.
  induction 1 as [|x l sub HP _ IH|x l sub HP _ IH]; intros y.
  - split; [intros []|intros [[] _]].
  - cbn [In]. rewrite IH. split.
    + intros [<-|[Hy Py]]; [split; [left; reflexivity|exact HP]|].
      split; [right; exact Hy|exact Py].
    + intros [[<-|Hy] Py]; [left; reflexivity|right; split; assumption].
  - cbn [In]. rewrite IH. split.
    + intros [Hy Py]. split; [right; exact Hy|exact Py].
    + intros [[<-|Hy] Py]; [contradiction|split; assumption].
Qed.

Lemma sorted_ranks_before (l : list Row) :
  StronglySorted (fun r1 r2 => row_ge r1 r2 = true) l ->
  StronglySorted ranks_before l.
Proof.
  induction 1 as [|a l _ IH Hall]; constructor; [exact IH|].
  revert Hall. apply List.Forall_impl. intros x. apply row_ge_spec.
Qed.

Lemma has_bucket_all (rows : list Row) :
  (forall r, In r rows -> bucket r <> None) -> forallb has_bucket rows = true.
Proof.
  intros H. apply forallb_forall. intros r Hr. unfold has_bucket.
  specialize (H r Hr). destruct (bucket r); [reflexivity|contradiction].
Qed.

End SelectionSpec.

(** C4, as stated, fails.  With total 3 and ratio (1, 1, 0) the allocator
    hands over the quotas (2, 2, -1), and [head(-1)] keeps all rows of the
    bucket but the last: of three P3 rows two are picked, more than the
    quota; and under a negative total the truncation [head(total)] leaves a
    shortlist that is not within the total. *)
Lemma select_negative_quota_overfills :
  let r (i : string) (b : string) (t : Z) := mkRow i i "" t "" (Some b) 2 "" in
  Allocator.ratio_counts 3 (1, 1, 0) = Some (2, 2, -1) /\
  option_map (map pid)
    (select 3 (2, 2, -1) [ r "a" "P3_2d_cv" 3; r "b" "P3_2d_cv" 2; r "c" "P3_2d_cv" 1 ])
    = Some ["a"; "b"] /\
  -1 < Z.of_nat (length ["a"; "b"]) /\
  option_map (fun picks : list Row => Z.of_nat (length picks))
    (select (-1) (1, 0, 0) [ r "a" "P1_x" 3; r "b" "P1_x" 2 ])
    = Some 0 /\
  -1 < 0.
Proof. repeat split. Qed.

(** C4, amended: for every pool whose rows all carry a bucket, non-negative
    quotas and a non-negative total, the selector sorts the whole pool once
    by score descending, then publication descending; for each of P1, P2,
    P3 it takes, of the rows whose bucket name starts with that prefix, in
    the order of the sorted pool, the first ones up to the quota and no more
    than the bucket has (a short bucket is not filled from another); it
    concatenates the three selections in that order and truncates to the
    total, so the shortlist has at most the total number of items. *)
Theorem select_top_of_each_bucket (total q1 q2 q3 : Z) (rows : list Row) :
  0 <= total -> 0 <= q1 -> 0 <= q2 -> 0 <= q3 ->
  (forall r, In r rows -> bucket r <> None) ->
  exists df b1 b2 b3 picks,
    Permutation df rows /\
    StronglySorted ranks_before df /\
    kept (bucket_starts "P1") df b1 /\
    kept (bucket_starts "P2") df b2 /\
    kept (bucket_starts "P3") df b3 /\
    select total (q1, q2, q3) rows = Some picks /\
    picks = firstn (Z.to_nat total)
              (firstn (Z.to_nat q1) b1 ++ firstn (Z.to_nat q2) b2
               ++ firstn (Z.to_nat q3) b3) /\
    Z.of_nat (length picks)
      = Z.min total
          (Z.min q1 (Z.of_nat (length b1)) + Z.min q2 (Z.of_nat (length b2))
           + Z.min q3 (Z.of_nat (length b3))) /\
    Z.of_nat (length picks) <= total /\
    (forall p b, kept (bucket_starts p) df b ->
       forall x, In x b <-> In x rows /\ bucket_starts p x).
Proof.
  intros Ht H1 H2 H3 Hb.
  pose proof (sort_values_perm rows) as Hperm.
  pose proof (sorted_ranks_before _ (sort_values_sorted rows)) as Hsorted.
  exists (sort_values rows),
         (List.filter (in_bucket "P1") (sort_values rows)),
         (List.filter (in_bucket "P2") (sort_values rows)),
         (List.filter (in_bucket "P3") (sort_values rows)).
  eexists. split; [exact Hperm|]. split; [exact Hsorted|].
  split; [apply kept_filter; intros x; apply in_bucket_spec|].
  split; [apply kept_filter; intros x; apply in_bucket_spec|].
  split; [apply kept_filter; intros x; apply in_bucket_spec|].
  split.
  { unfold select.
    rewrite (forallb_has_bucket_perm rows (sort_values rows)
               (Permutation_sym Hperm) (has_bucket_all rows Hb)).
    rewrite !df_head_nonneg by assumption. reflexivity. }
  split; [reflexivity|].
  split; [rewrite length_firstn, !length_app, !length_firstn; lia|].
  split; [rewrite length_firstn; lia|].
  intros p b Hk x. rewrite (kept_in _ _ _ Hk x).
  split; intros [Hx Px]; (split; [|exact Px]).
  - exact (Permutation_in x Hperm Hx).
  - exact (Permutation_in x (Permutation_sym Hperm) Hx).
Qed.

Lemma select_top_of_each_bucket_witness :
  let r (i : string) (b : string) (s t : Z) := mkRow i i "" t "" (Some b) s "" in
  let rows := [ r "a" "P2_x" 2 5; r "b" "P1_x" 2 1; r "c" "P1_x" 3 1; r "d" "P1_x" 2 7 ] in
  exists df b1 b2 b3 picks,
    Permutation df rows /\
    StronglySorted ranks_before df /\
    kept (bucket_starts "P1") df b1 /\
    kept (bucket_starts "P2") df b2 /\
    kept (bucket_starts "P3") df b3 /\
    select 3 (1, 1, 1) rows = Some picks /\
    picks = firstn (Z.to_nat 3)
              (firstn (Z.to_nat 1) b1 ++ firstn (Z.to_nat 1) b2
               ++ firstn (Z.to_nat 1) b3) /\
    Z.of_nat (length picks)
      = Z.min 3
          (Z.min 1 (Z.of_nat (length b1)) + Z.min 1 (Z.of_nat (length b2))
           + Z.min 1 (Z.of_nat (length b3))) /\
    Z.of_nat (length picks) <= 3 /\
    (forall p b, kept (bucket_starts p) df b ->
       forall x, In x b <-> In x rows /\ bucket_starts p x).
Proof.
  intros r rows. apply (select_top_of_each_bucket 3 1 1 1 rows); try lia.
  intros x [<-|[<-|[<-|[<-|[]]]]]; discriminate.
Defined.
